(** * The parallel-sentence keyword indexer (index_parasentences.py)

    A shallow embedding of [MakeIndexBatch]: sentence normalisation,
    duplicate filtering, phrase extraction, the phrase-probability
    estimate, and the per-phrase reservoir of line ids, together with the
    properties of these components stated in the design document. *)

From Stdlib Require Import ZArith NArith QArith Qpower Lia Lqa String Ascii.
From Stdlib Require Import DecimalString DecimalN.
From stdpp Require Import base option list sorting gmap.

Close Scope Q_scope.
Open Scope Z_scope.

(** * Python strings *)

(** A Python [str] is a sequence of Unicode code points. *)
Abbreviation str := (list N).

(** ASCII literals, written as Rocq strings. *)
Definition lit (s : string) : str := N_of_ascii <$> list_ascii_of_string s.

Module PyStr.

(** [str.isspace] on one code point (CPython's whitespace table). *)
Definition isspace (c : N) : bool :=
  ((9 <=? c) && (c <=? 13) || (28 <=? c) && (c <=? 32)
   || (c =? 133) || (c =? 160) || (c =? 5760)
   || (8192 <=? c) && (c <=? 8202)
   || (c =? 8232) || (c =? 8233) || (c =? 8239) || (c =? 8287)
   || (c =? 12288))%N.

Fixpoint lstrip (s : str) : str :=
  match s with
  | c :: s' => if isspace c then lstrip s' else s
  | [] => []
  end.

Definition rstrip (s : str) : str := reverse (lstrip (reverse s)).

(** [s.strip()] *)
Definition strip (s : str) : str := rstrip (lstrip s).

(** [s.split(sep)] for a one-character separator: never empty. *)
Fixpoint split (sep : N) (s : str) : list str :=
  match s with
  | [] => [[]]
  | c :: s' =>
      if (c =? sep)%N then [] :: split sep s'
      else match split sep s' with
           | w :: ws => (c :: w) :: ws
           | [] => [[c]]
           end
  end.

(** [sep.join(l)] for a one-character separator. *)
Fixpoint join (sep : N) (l : list str) : str :=
  match l with
  | [] => []
  | [w] => w
  | w :: ws => w ++ sep :: join sep ws
  end.

Definition isascii (s : str) : bool := forallb (λ c, c <? 128)%N s.

Definition ascii_lower (c : N) : N :=
  if ((65 <=? c) && (c <=? 90))%N then (c + 32)%N else c.

Definition ascii_letter (c : N) : bool :=
  ((65 <=? c) && (c <=? 90) || (97 <=? c) && (c <=? 122))%N.

Definition digit (c : N) : bool := ((48 <=? c) && (c <=? 57))%N.

(** Decimal rendering of an integer, as [str(n)] and [format]. *)
Definition of_N (n : N) : str := lit (NilEmpty.string_of_uint (N.to_uint n)).

Definition of_Z (z : Z) : str :=
  if z <? 0 then 45%N :: of_N (Z.to_N (- z)) else of_N (Z.to_N z).

End PyStr.

(** Python slices [l[:k]], for any integer [k]. *)
Definition slice_to {A} (k : Z) (l : list A) : list A :=
  if 0 <=? k then take (Z.to_nat k) l
  else take (length l - Z.to_nat (- k))%nat l.

(** * Exceptions *)

Inductive exn := ValueError | ZeroDivisionError | IndexError.

Inductive result (A : Type) :=
| Ok (a : A)
| Raise (e : exn).
Arguments Ok {A} a.
Arguments Raise {A} e.

#[global] Instance result_ret : MRet result := λ A a, Ok a.

#[global] Instance result_bind : MBind result := λ A B k m,
  match m with
  | Ok a => k a
  | Raise e => Raise e
  end.

(** [l[i] = v] on a Python list: negative indices count from the end,
    anything else out of range raises [IndexError]. *)
Definition setitem {A} (l : list A) (i : Z) (v : A) : result (list A) :=
  let n := Z.of_nat (length l) in
  if (0 <=? i) && (i <? n) then Ok (<[Z.to_nat i := v]> l)
  else if (- n <=? i) && (i <? 0) then Ok (<[Z.to_nat (n + i) := v]> l)
  else Raise IndexError.

(** * The world outside the script *)

(** Unicode tables of the Python runtime and of the [regex] module, outside
    ASCII: full case mapping ([str.lower]) and the script property
    [\p{Latin}].  Inside ASCII both are written out below. *)
Class Unicode := {
  unicode_lower : str → str;
  latin_nonascii : N → bool }.

(** The collaborators the script imports or opens: [tkrzw.Utility.PrimaryHash],
    [tkrzw_tokenizer.Tokenizer.Tokenize], the records of the [tkrzw.DBM] file
    at a path, and the lines of a text file. *)
Class Collaborators := {
  PrimaryHash : str → Z;
  Tokenize : str → str → bool → bool → list str;
  open_dbm : str → gmap str str;
  open_lines : str → list str }.

(** Python's [random.Random]: the constructor takes an optional seed and falls
    back on operating-system entropy (process and clock) when there is none;
    [randint a b] draws from [a..b] and advances the generator. *)
Class PyRandom := {
  rng : Type;
  entropy : Type;
  Random : option Z → entropy → rng;
  randint : rng → Z → Z → Z * rng;
  Random_seeded : ∀ seed e1 e2, Random (Some seed) e1 = Random (Some seed) e2;
  randint_range : ∀ g a b, a ≤ b → a ≤ (randint g a b).1 ≤ b }.

(** Python's [float]: the operations the script uses, uninterpreted.
    [float_lit] reads a decimal literal, [float_of_str] is [float(s)] on a
    string ([None]: [ValueError]), [fbool] is truthiness ([x != 0.0]),
    [flt] is [<], and [fpow x k] is [x ** k] for an integer [k].  The one
    law: [0.0] is false. *)
Class PyFloat := {
  float : Type;
  float_lit : Q → float;
  float_of_int : Z → float;
  float_of_str : str → option float;
  fbool : float → bool;
  flt : float → float → bool;
  fadd : float → float → float;
  fmul : float → float → float;
  fdiv : float → float → float;
  fpow : float → Z → float;
  fbool_zero : fbool (float_lit 0) = false }.

(** [x / y]: raises on a zero divisor. *)
Definition truediv `{PyFloat} (x y : float) : result float :=
  if fbool y then Ok (fdiv x y) else Raise ZeroDivisionError.

(** [max(a, b)]: the second argument wins only when it is greater. *)
Definition pymax `{PyFloat} (a b : float) : float := if flt a b then b else a.

(** [sorted(l, key=lambda x: x[1])]: the stable ascending sort. *)
Fixpoint insort `{PyFloat} {A} (x : A * float) (l : list (A * float)) : list (A * float) :=
  match l with
  | [] => [x]
  | y :: l' => if flt x.2 y.2 then x :: l else y :: insort x l'
  end.

Definition sorted_by_snd `{PyFloat} {A} (l : list (A * float)) : list (A * float) :=
  foldl (λ acc x, insort x acc) [] l.

(** * The end-to-end scenario of the design document *)

(** Its two input lines, the five phrases it names, and the index in which
    each of them has the same record. *)
Definition scenario_line_1 : str := lit "The cat sat." ++ 9%N :: lit "neko ga suwat".
Definition scenario_line_2 : str := lit "the cat sat" ++ 9%N :: lit "neko ga suwatta".

Definition scenario_phrases : list str :=
  [lit "the"; lit "the cat"; lit "cat"; lit "cat sat"; lit "sat"].

Definition scenario_index (record : list Z) : gmap str (list Z) :=
  list_to_map ((λ phrase, (phrase, record)) <$> scenario_phrases).

(** * MakeIndexBatch *)

Section Indexer.
Context {U : Unicode} {C : Collaborators} {R : PyRandom} {F : PyFloat}.

(** ** Text predicates and regular expressions *)

(** [s.lower()] *)
Definition lower (s : str) : str :=
  if PyStr.isascii s then PyStr.ascii_lower <$> s else unicode_lower s.

(** [\p{Latin}] *)
Definition latin (c : N) : bool :=
  if (c <? 128)%N then PyStr.ascii_letter c else latin_nonascii c.

(** [[\p{Latin}0-9]] *)
Definition alnum (c : N) : bool := latin c || PyStr.digit c.

(** [[-\p{Latin}0-9]] *)
Definition joiner (c : N) : bool := (c =? 45)%N || alnum c.

(** [[-\p{Latin}0-9_]]; its complement is a symbol. *)
Definition wordchar (c : N) : bool := joiner c || (c =? 95)%N.

(** [regex.sub] of the class of the four curly quotation marks U+2018,
    U+2019, U+201C, U+201D by the ASCII double quote (line 145). *)
Definition sub_quotes (s : str) : str :=
  (λ c, if ((c =? 8216) || (c =? 8217) || (c =? 8220) || (c =? 8221))%N
        then 34%N else c) <$> s.

(** [regex.sub] of [([-\p{Latin}0-9])Q([-\p{Latin}0-9])] by [\1Q \2],
    where Q is the ASCII double quote (line 146): matches are taken
    leftmost first and do not overlap. *)
Fixpoint sub_quote_gap (s : str) : str :=
  match s with
  | [] => []
  | a :: t =>
      match t with
      | q :: b :: rest =>
          if joiner a && (q =? 34)%N && joiner b
          then a :: 34%N :: 32%N :: b :: sub_quote_gap rest
          else a :: sub_quote_gap t
      | _ => a :: sub_quote_gap t
      end
  end.

(** The normalised sentence of a stripped line (lines 142-146). *)
Definition mod_sentence_of (line : str) : str :=
  let fields := PyStr.split 9 line in
  let sentence := PyStr.strip (hd [] fields) in
  let mod_sentence := lower sentence in
  let mod_sentence := sub_quotes mod_sentence in
  sub_quote_gap mod_sentence.

Fixpoint drop_symbols (word : str) : str :=
  match word with
  | c :: word' => if wordchar c then word else drop_symbols word'
  | [] => []
  end.

(** The head-symbol pattern of line 161, anchored at both ends: a greedy
    non-empty run outside [[-\p{Latin}0-9_]] (group 1), then the rest of
    the word (group 2).  Returns whether it matched, and group 2 (the word
    itself when it did not).  The words come from one line of input, so
    they hold no newline and the dot of group 2 takes all the rest. *)
Definition head_match (word : str) : bool * str :=
  match word with
  | c :: _ => if wordchar c then (false, word) else (true, drop_symbols word)
  | [] => (false, word)
  end.

(** The tail-symbol pattern of line 166, anchored at both ends: a lazy
    prefix (group 1), then a non-empty run outside [[-\p{Latin}0-9_]] up to
    the end (group 2).  Returns whether it matched, and group 1 (the word
    itself when it did not). *)
Definition tail_match (word : str) : bool * str :=
  let '(found, rest) := head_match (reverse word) in (found, reverse rest).

(** [regex.search] of [[\p{Latin}0-9]] *)
Definition has_alnum (word : str) : bool := existsb alnum word.

(** ** The object and the locals of [ProcessRecords] *)

Record MakeIndexBatch := mkBatch {
  output_path : str;
  phrase_prob_path : str;
  keywords_path : str;
  max_words : Z;
  max_ngram : Z;
  max_samples : Z;
  num_buckets : Z;
  output_dbm : gmap str str;
  phrase_prob_dbm : option (gmap str str);
  focus_keywords : gset str;
  word_index : gmap str (list Z);
  random : rng }.

Record state := mkState {
  self : MakeIndexBatch;
  num_lines : Z;
  num_words : Z;
  sentence_hashes : gset Z }.

Definition set_output_dbm (d : gmap str str) (b : MakeIndexBatch) : MakeIndexBatch :=
  mkBatch (output_path b) (phrase_prob_path b) (keywords_path b) (max_words b)
    (max_ngram b) (max_samples b) (num_buckets b) d (phrase_prob_dbm b)
    (focus_keywords b) (word_index b) (random b).

Definition set_index (w : gmap str (list Z)) (g : rng) (b : MakeIndexBatch) : MakeIndexBatch :=
  mkBatch (output_path b) (phrase_prob_path b) (keywords_path b) (max_words b)
    (max_ngram b) (max_samples b) (num_buckets b) (output_dbm b) (phrase_prob_dbm b)
    (focus_keywords b) w g.

(** ** GetPhraseProb (lines 97-131) *)

Definition base_prob : float := float_lit (1 # 1000000000).

(** [float(self.phrase_prob_dbm.GetStr(cur_phrase) or 0.0)] *)
Definition get_prob (dbm : gmap str str) (cur_phrase : str) : result float :=
  match dbm !! cur_phrase with
  | None | Some [] => Ok (float_lit 0)
  | Some v =>
      match float_of_str v with
      | Some x => Ok x
      | None => Raise ValueError
      end
  end.

(** The [while index <= len(tokens) - ngram] loop: [Some probs] when every
    window was found, [None] on the first miss. *)
Fixpoint scan_windows (dbm : gmap str str) (tokens : list str) (ngram : nat)
    (indices : list nat) (probs : list float) : result (option (list float)) :=
  match indices with
  | [] => Ok (Some probs)
  | index :: indices' =>
      let cur_phrase := PyStr.join 32 (take ngram (drop index tokens)) in
      cur_prob ← get_prob dbm cur_phrase;
      if fbool cur_prob
      then scan_windows dbm tokens ngram indices' (probs ++ [cur_prob])
      else Ok None
  end.

(** [for cur_prob in probs: inv_sum += 1 / cur_prob] *)
Fixpoint sum_inverses (probs : list float) (inv_sum : float) : result float :=
  match probs with
  | [] => Ok inv_sum
  | cur_prob :: probs' =>
      q ← truediv (float_of_int 1) cur_prob;
      sum_inverses probs' (fadd inv_sum q)
  end.

(** The result once every window of one order was found (lines 123-129). *)
Definition combine (tokens : list str) (ngram : nat) (probs : list float)
    (fallback_penalty : float) : result float :=
  inv_sum ← sum_inverses probs (float_of_int 0);
  prob ← truediv (float_of_int (Z.of_nat (length probs))) inv_sum;
  let prob := fmul prob (fpow (float_lit (3 # 10)) (Z.of_nat (length tokens) - Z.of_nat ngram)) in
  let prob := fmul prob fallback_penalty in
  Ok (pymax prob base_prob).

(** [for ngram in range(max_ngram, 0, -1)], from order [ngram] down. *)
Fixpoint orders (dbm : gmap str str) (tokens : list str) (ngram : nat)
    (fallback_penalty : float) : result float :=
  match ngram with
  | O => Ok base_prob
  | S next =>
      if (length tokens <=? ngram)%nat then
        let cur_phrase := PyStr.join 32 tokens in
        prob ← get_prob dbm cur_phrase;
        if fbool prob then Ok (pymax prob base_prob)
        else orders dbm tokens next (fmul fallback_penalty (float_lit (1 # 10)))
      else
        found ← scan_windows dbm tokens ngram
                  (seq 0 (S (length tokens - ngram))) [];
        match found with
        | Some probs => combine tokens ngram probs fallback_penalty
        | None => orders dbm tokens next (fmul fallback_penalty (float_lit (1 # 10)))
        end
  end.

Definition GetPhraseProb (dbm : gmap str str) (word : str) : result float :=
  let tokens := PyStr.split 32 word in
  if bool_decide (tokens = []) then Ok base_prob
  else orders dbm tokens (Nat.min 3 (length tokens)) (float_lit 1).

(** ** ProcessRecords (lines 133-214) *)

(** The keyword filter of lines 176-181. *)
Definition is_good (focus_keywords : gset str) (phrase : str) : bool :=
  if bool_decide (focus_keywords = ∅) then true
  else if bool_decide (phrase ∈ focus_keywords) then true
  else
    let norm_phrase := PyStr.join 32 (Tokenize (lit "en") phrase false true) in
    bool_decide (norm_phrase ∈ focus_keywords).

(** The inner loop [while index < end_index] (lines 158-185), over the
    words [words[index:end_index]] still to visit; [first] says that
    [index = start_index].  The accumulator is [phrases], [uniq_phrases]
    and [num_words]. *)
Fixpoint window (focus_keywords : gset str) (rest : list str) (first : bool)
    (tokens : list str) (acc : list str * gset str * Z) : list str * gset str * Z :=
  match rest with
  | [] => acc
  | word :: rest' =>
      let '(phrases, uniq_phrases, num_words) := acc in
      let '(head_symbol, word) := head_match word in
      let '(tail_symbol, word) := tail_match word in
      if negb (has_alnum word) then acc
      else
        let num_words := num_words + 1 in
        if head_symbol && negb first then (phrases, uniq_phrases, num_words)
        else
          let tokens := tokens ++ [word] in
          let phrase := PyStr.join 32 tokens in
          let acc :=
            if is_good focus_keywords phrase && negb (bool_decide (phrase ∈ uniq_phrases))
            then (phrases ++ [phrase], {[phrase]} ∪ uniq_phrases, num_words)
            else (phrases, uniq_phrases, num_words) in
          if tail_symbol then acc
          else window focus_keywords rest' false tokens acc
  end.

(** The outer loop [while start_index < len(words)] (lines 154-186), over
    the suffix [words[start_index:]]. *)
Fixpoint extract (focus_keywords : gset str) (max_ngram : Z) (words : list str)
    (acc : list str * gset str * Z) : list str * gset str * Z :=
  match words with
  | [] => acc
  | _ :: words' =>
      extract focus_keywords max_ngram words'
        (window focus_keywords (take (Z.to_nat max_ngram) words) true [] acc)
  end.

(** Lines 187-194: the order in which the phrases are indexed. *)
Definition rank_phrases (b : MakeIndexBatch) (phrases : list str) : result (list str) :=
  if Z.of_nat (length phrases) >? max_words b then
    match phrase_prob_dbm b with
    | Some dbm =>
        scored_phrases ← mapM (λ phrase,
          prob ← GetPhraseProb dbm phrase; mret (phrase, prob)) phrases;
        Ok ((sorted_by_snd scored_phrases).*1)
    | None => Ok phrases
    end
  else Ok phrases.

(** [self.random.randint(a, b)]: an empty range is a [ValueError]. *)
Definition py_randint (g : rng) (a b : Z) : result (Z * rng) :=
  if a <=? b then Ok (randint g a b) else Raise ValueError.

(** One pass of the loop body of lines 198-209: a record is the Python
    list [[count, id_1, ..., id_k]]. *)
Definition update (max_samples : Z) (num_lines : Z) (phrase : str)
    (index : gmap str (list Z) * rng) : result (gmap str (list Z) * rng) :=
  let '(word_index, random) := index in
  match word_index !! phrase with
  | Some (count :: samples) =>
      let old_record := count :: samples in
      let num_samples := count + 1 in
      '(old_record, random) ←
        (if Z.of_nat (length old_record) <=? max_samples
         then Ok (old_record ++ [num_lines], random)
         else
           '(rnd_value, random) ← py_randint random 1 num_samples;
           if rnd_value <? max_samples
           then old_record ← setitem old_record rnd_value num_lines;
                Ok (old_record, random)
           else Ok (old_record, random));
      old_record ← setitem old_record 0 num_samples;
      Ok (<[phrase := old_record]> word_index, random)
  | _ => Ok (<[phrase := [1; num_lines]]> word_index, random)
  end.

(** [for phrase in phrases[:self.max_words]] *)
Fixpoint update_all (max_samples : Z) (num_lines : Z) (phrases : list str)
    (index : gmap str (list Z) * rng) : result (gmap str (list Z) * rng) :=
  match phrases with
  | [] => Ok index
  | phrase :: phrases' =>
      index ← update max_samples num_lines phrase index;
      update_all max_samples num_lines phrases' index
  end.

(** The key of line 195. *)
Definition line_key (num_lines : Z) : str :=
  lit "[" ++ PyStr.of_Z num_lines ++ lit "]".

(** The body of [for line in sys.stdin] (lines 140-212). *)
Definition process_line (st : state) (line : str) : result state :=
  let line := PyStr.strip line in
  if bool_decide (line = []) then Ok st
  else
    let mod_sentence := mod_sentence_of line in
    let sentence_hash := PrimaryHash mod_sentence in
    if bool_decide (sentence_hash ∈ sentence_hashes st) then Ok st
    else
      let sentence_hashes := {[sentence_hash]} ∪ sentence_hashes st in
      let words := PyStr.split 32 mod_sentence in
      let '(phrases, _, num_words) :=
        extract (focus_keywords (self st)) (max_ngram (self st)) words
          ([], ∅, num_words st) in
      phrases ← rank_phrases (self st) phrases;
      let key := line_key (num_lines st) in
      let output_dbm := <[key := line]> (output_dbm (self st)) in
      '(word_index, random) ←
        update_all (max_samples (self st)) (num_lines st)
          (slice_to (max_words (self st)) phrases)
          (word_index (self st), random (self st));
      Ok (mkState
            (set_index word_index random (set_output_dbm output_dbm (self st)))
            (num_lines st + 1) num_words sentence_hashes).

Fixpoint process_lines (st : state) (stdin : list str) : result state :=
  match stdin with
  | [] => Ok st
  | line :: stdin' => st ← process_line st line; process_lines st stdin'
  end.

Definition ProcessRecords (b : MakeIndexBatch) (stdin : list str) : result MakeIndexBatch :=
  st ← process_lines (mkState b 0 0 ∅) stdin; Ok (self st).

(** ** OutputIndex (lines 216-228) *)

Definition index_value (ids : list Z) : str :=
  PyStr.join 44 (PyStr.of_Z <$> merge_sort Z.le (tail ids)).

Definition OutputIndex (b : MakeIndexBatch) : MakeIndexBatch :=
  set_output_dbm
    (map_fold (λ word ids dbm, <[word := index_value ids]> dbm)
       (output_dbm b) (word_index b)) b.

(** ** ReadKeywords (lines 79-95) and Run (lines 60-77) *)

Definition ReadKeywords (b : MakeIndexBatch) : MakeIndexBatch :=
  let keywords :=
    foldl (λ keywords line,
      let line := PyStr.strip line in
      if bool_decide (line = []) then keywords
      else
        let line := lower line in
        let norm_line := PyStr.join 32 (Tokenize (lit "en") line false true) in
        {[norm_line]} ∪ ({[line]} ∪ keywords))
      (focus_keywords b) (open_lines (keywords_path b)) in
  mkBatch (output_path b) (phrase_prob_path b) (keywords_path b) (max_words b)
    (max_ngram b) (max_samples b) (num_buckets b) (output_dbm b) (phrase_prob_dbm b)
    keywords (word_index b) (random b).

Definition open_phrase_prob (b : MakeIndexBatch) : MakeIndexBatch :=
  mkBatch (output_path b) (phrase_prob_path b) (keywords_path b) (max_words b)
    (max_ngram b) (max_samples b) (num_buckets b) (output_dbm b)
    (Some (open_dbm (phrase_prob_path b)))
    (focus_keywords b) (word_index b) (random b).

(** The output store is opened with [truncate=True]: it starts empty. *)
Definition Run (b : MakeIndexBatch) (stdin : list str) : result MakeIndexBatch :=
  let b := if bool_decide (phrase_prob_path b = []) then b else open_phrase_prob b in
  let b := if bool_decide (keywords_path b = []) then b else ReadKeywords b in
  let b := set_output_dbm ∅ b in
  b ← ProcessRecords b stdin;
  Ok (OutputIndex b).

(** [__init__] (lines 44-58); [e] is the entropy of the process, which the
    constructor of the generator is handed together with the seed. *)
Definition init (e : entropy) (output_path phrase_prob_path keywords_path : str)
    (max_words max_ngram max_samples num_buckets : Z) : MakeIndexBatch :=
  mkBatch output_path phrase_prob_path keywords_path max_words max_ngram
    max_samples num_buckets ∅ None ∅ ∅ (Random (Some 19780211) e).

(** ** Notions used in the statements *)

(** The count and the samples of a record [[count, id_1, ..., id_k]]. *)
Definition count_of (record : list Z) : Z := hd 0 record.
Definition samples_of (record : list Z) : list Z := tail record.

(** A sequence of [Update(phrase, line_id)] calls, each with its own line
    id, as successive lines make them. *)
Fixpoint updates (max_samples : Z) (calls : list (Z * str))
    (index : gmap str (list Z) * rng) : result (gmap str (list Z) * rng) :=
  match calls with
  | [] => Ok index
  | (line_id, phrase) :: calls' =>
      index ← update max_samples line_id phrase index;
      updates max_samples calls' index
  end.

(** The line ids with which [phrase] was indexed by [calls], in order. *)
Definition occurrences (phrase : str) (calls : list (Z * str)) : list Z :=
  (filter (λ call, call.2 = phrase) calls).*1.

(** What a record must be once [phrase] was indexed with the line ids [occ],
    for a reservoir of capacity [max_samples]. *)
Definition record_ok (max_samples : Z) (occ : list Z) (record : list Z) : Prop :=
  occ ≠ [] ∧
  ∃ samples, record = Z.of_nat (length occ) :: samples ∧
    Z.of_nat (length samples) ≤ max_samples ∧
    (length samples ≤ length occ)%nat ∧
    (Z.of_nat (length occ) ≤ max_samples → samples = occ).

Definition index_ok (max_samples : Z) (calls : list (Z * str))
    (word_index : gmap str (list Z)) : Prop :=
  ∀ phrase,
    match word_index !! phrase with
    | None => occurrences phrase calls = []
    | Some record => record_ok max_samples (occurrences phrase calls) record
    end.

(** Every record starts with a count that is not negative. *)
Definition index_wf (word_index : gmap str (list Z)) : Prop :=
  ∀ phrase count samples, word_index !! phrase = Some (count :: samples) → 0 ≤ count.

(** The probability model, when one is configured, scores every phrase
    without raising. *)
Definition scoring_ok (b : MakeIndexBatch) : Prop :=
  match phrase_prob_dbm b with
  | None => True
  | Some dbm => ∀ word, ∃ prob, GetPhraseProb dbm word = Ok prob
  end.

(** The accepted lines of an input, stripped, in arrival order: those that
    are not blank and whose sentence hash was not seen before. *)
Fixpoint accepted (seen : gset Z) (stdin : list str) : list str :=
  match stdin with
  | [] => []
  | line :: stdin' =>
      let line := PyStr.strip line in
      let sentence_hash := PrimaryHash (mod_sentence_of line) in
      if bool_decide (line = []) then accepted seen stdin'
      else if bool_decide (sentence_hash ∈ seen) then accepted seen stdin'
      else line :: accepted ({[sentence_hash]} ∪ seen) stdin'
  end.

(** The [i]-th sliding window of [ngram] tokens, as a phrase. *)
Definition window_phrase (tokens : list str) (ngram index : nat) : str :=
  PyStr.join 32 (take ngram (drop index tokens)).

(** [sum(1 / p for p in probs)], accumulated from the integer [0]. *)
Definition inverse_sum (probs : list float) : float :=
  foldl (λ inv_sum p, fadd inv_sum (fdiv (float_of_int 1) p)) (float_of_int 0) probs.

(** The harmonic mean [m / sum(1/p_i)] of [m] probabilities. *)
Definition harmonic_mean (probs : list float) : float :=
  fdiv (float_of_int (Z.of_nat (length probs))) (inverse_sum probs).

(** The penalty [0.1^k] accumulated by [k] missed orders. *)
Definition penalty (k : nat) : float :=
  Nat.iter k (λ p, fmul p (float_lit (1 # 10))) (float_lit 1).

(** An order of the backoff is missed: the whole phrase, or one of its
    windows, is looked up and comes back false. *)
Definition order_missed (dbm : gmap str str) (tokens : list str) (ngram : nat) : Prop :=
  if (length tokens <=? ngram)%nat
  then ∃ p, get_prob dbm (PyStr.join 32 tokens) = Ok p ∧ fbool p = false
  else scan_windows dbm tokens ngram (seq 0 (S (length tokens - ngram))) [] = Ok None.

(** The line store after [lines] were written under consecutive keys from
    [n] on. *)
Fixpoint store_lines (n : Z) (lines : list str) (dbm : gmap str str) : gmap str str :=
  match lines with
  | [] => dbm
  | line :: lines' => store_lines (n + 1) lines' (<[line_key n := line]> dbm)
  end.

(** The phrase is absent from the table at every order: no window of its
    tokens, of any length, is a key. *)
Definition absent_everywhere (dbm : gmap str str) (tokens : list str) : Prop :=
  ∀ ngram index, dbm !! window_phrase tokens ngram index = None.

(** Every value stored in the probability table reads as a number. *)
Definition table_parses (dbm : gmap str str) : Prop :=
  ∀ key v, dbm !! key = Some v → v ≠ [] → is_Some (float_of_str v).

(** The scenario as the design document states it: one hash for both
    lines, one stored line, and a count of one for each phrase. *)
Definition scenario_claim (b : MakeIndexBatch) : Prop :=
  PrimaryHash (mod_sentence_of scenario_line_1) = PrimaryHash (mod_sentence_of scenario_line_2)
  ∧ ∃ b', ProcessRecords b [scenario_line_1; scenario_line_2] = Ok b'
      ∧ size (output_dbm b') = 1%nat
      ∧ Forall (λ phrase, count_of <$> word_index b' !! phrase = Some 1) scenario_phrases.

End Indexer.

(** * Concrete worlds *)

(** ASCII text only: no case mapping and no Latin letter outside ASCII. *)
Definition ascii_text : Unicode :=
  {| unicode_lower := id; latin_nonascii := λ _, false |}.

(** A 64-bit multiplicative string hash. *)
Definition poly_hash (s : str) : Z :=
  foldl (λ h c, (h * 31 + Z.of_N c) mod 2 ^ 64) 7 s.

(** A hash, a tokenizer that splits on spaces, and an empty file system. *)
Definition plain_tools : Collaborators :=
  {| PrimaryHash := poly_hash;
     Tokenize := λ _ text _ _, PyStr.split 32 text;
     open_dbm := λ _, ∅;
     open_lines := λ _, [] |}.

(** A linear congruential generator: the state is the seed, or the entropy
    of the process when no seed is given. *)
Definition lcg : PyRandom.
Proof.
  refine {| rng := Z; entropy := Z;
            Random := λ seed e, default e seed;
            randint := λ g a b,
              (a + g mod (b - a + 1),
               (g * 6364136223846793005 + 1442695040888963407) mod 2 ^ 64) |}.
  - reflexivity.
  - intros g a b Hab; simpl.
    pose proof (Z.mod_pos_bound g (b - a + 1)); lia.
Defined.

(** Exact arithmetic: floats as rationals, with [parse] for [float(s)]. *)
Definition exact (parse : str → option Q) : PyFloat :=
  {| float := Q;
     float_lit := id;
     float_of_int := inject_Z;
     float_of_str := parse;
     fbool := λ x, negb (Qeq_bool x 0);
     flt := λ x y, negb (Qle_bool y x);
     fadd := Qplus;
     fmul := Qmult;
     fdiv := Qdiv;
     fpow := Qpower;
     fbool_zero := eq_refl |}.

(** Plain decimal numerals, [digits] or [digits.digits]. *)
Fixpoint decimal_digits (s : str) (acc : Z) (scale : positive) (frac : bool) : option Q :=
  match s with
  | [] => Some (acc # scale)%Q
  | c :: s' =>
      if PyStr.digit c
      then decimal_digits s' (acc * 10 + (Z.of_N c - 48))
             (if frac then scale * 10 else scale)%positive frac
      else if (c =? 46)%N && negb frac then decimal_digits s' acc scale true
      else None
  end.

Definition parse_decimal (s : str) : option Q :=
  if bool_decide (s = [] ∨ s = [46%N]) then None else decimal_digits s 0 1 false.


(** A fresh run with the default options, and a state in which the first
    line of the scenario has been seen. *)
Definition fresh_state : state (R := lcg) :=
  mkState (init (R := lcg) 0 (lit "out.tkh") [] [] 50 3 100 1000000) 0 0 ∅.

Definition seen_state : state (R := lcg) :=
  mkState (init (R := lcg) 0 (lit "out.tkh") [] [] 50 3 100 1000000) 1 5
    {[poly_hash (lit "the cat sat.")]}.

(** Three occurrences of one phrase, in lines 0, 1 and 2. *)
Definition cat_calls : list (Z * str) := [(0, lit "cat"); (1, lit "cat"); (2, lit "cat")].

(** A line with a leading space, a trailing space and its line feed. *)
Definition padded_line : str := 32%N :: lit "cat" ++ 9%N :: lit "neko" ++ [32%N; 10%N].

(** An input with a blank line, a line without phrases and a repeated line. *)
Definition sample_stdin : list str :=
  [scenario_line_1 ++ [10%N]; [10%N]; lit "..." ++ [10%N]; scenario_line_1 ++ [10%N];
   lit "a dog" ++ [10%N]].

(** In exact arithmetic: every value stored in the probability table reads
    as a number that is not negative; and the order of scored phrases. *)
Definition table_nonneg (parse : str → option Q) (dbm : gmap str str) : Prop :=
  ∀ key v, dbm !! key = Some v → v ≠ [] → ∃ q, parse v = Some q ∧ (0 <= q)%Q.


(** A small probability table, and a run capped at two phrases a line. *)
Definition sample_table : gmap str str :=
  list_to_map [(lit "the cat", lit "0.5"); (lit "cat sat", lit "0.25"); (lit "sat", lit "0.02")].

Definition capped_batch (dbm : option (gmap str str)) : MakeIndexBatch (R := lcg) :=
  mkBatch (R := lcg) (lit "out.tkh") [] [] 2 3 100 1000000 ∅ dbm ∅ ∅ 19780211.

(** * Notions for the properties of the parts *)

(** The four curly quotation marks of line 145. *)
Definition curly (c : N) : bool :=
  ((c =? 8216) || (c =? 8217) || (c =? 8220) || (c =? 8221))%N.

Section Words.
Context {U : Unicode} {C : Collaborators}.

(** What the loop body of lines 159-170 makes of one word: whether it has a
    head symbol, whether it has a tail symbol, and its core. *)
Definition head_symbol (word : str) : bool := (head_match word).1.
Definition tail_symbol (word : str) : bool := (tail_match (head_match word).2).1.
Definition core (word : str) : str := (tail_match (head_match word).2).2.

(** The words of a window that the inner loop goes through to the end:
    every core has a letter or digit, no word but the first has a head
    symbol, and no word but the last has a tail symbol. *)
Fixpoint unbroken_from (first : bool) (ws : list str) : bool :=
  match ws with
  | [] => true
  | w :: ws' =>
      has_alnum (core w) && (first || negb (head_symbol w))
      && (bool_decide (ws' = []) || negb (tail_symbol w))
      && unbroken_from false ws'
  end.

Definition unbroken (ws : list str) : bool := unbroken_from true ws.

(** Lines 176-184: the phrase is recorded when it passes the keyword filter
    and is new. *)
Definition record_phrase (kw : gset str) (phrase : str) (acc : list str * gset str * Z)
    : list str * gset str * Z :=
  let '(phrases, uniq_phrases, num_words) := acc in
  if is_good kw phrase && negb (bool_decide (phrase ∈ uniq_phrases))
  then (phrases ++ [phrase], {[phrase]} ∪ uniq_phrases, num_words)
  else (phrases, uniq_phrases, num_words).

(** [phrases] has no repetition and [uniq_phrases] is its set. *)
Definition acc_ok (acc : list str * gset str * Z) : Prop :=
  NoDup acc.1.1 ∧ ∀ p, p ∈ acc.1.2 ↔ p ∈ acc.1.1.

(** The window of [j] words that starts at word [i]. *)
Definition window_at (words : list str) (i j : nat) : list str := take j (drop i words).

(** [phrase] is a candidate of the words: the cores of an unbroken window of
    at most [max_ngram] words, joined by spaces, and let through by the
    keyword filter. *)
Definition candidate (kw : gset str) (max_ngram : Z) (words : list str) (phrase : str) : Prop :=
  ∃ i j, (1 ≤ j ≤ Z.to_nat max_ngram)%nat ∧ (i + j ≤ length words)%nat
    ∧ unbroken (window_at words i j) = true
    ∧ phrase = PyStr.join 32 (core <$> window_at words i j)
    ∧ is_good kw phrase = true.

(** The two keywords that a line of the keyword file stands for. *)
Definition keywords_of_line (line : str) : list str :=
  let line := lower (PyStr.strip line) in
  [line; PyStr.join 32 (Tokenize (lit "en") line false true)].
End Words.

(** What a record is once [phrase] was indexed with the line ids [occ], for
    any capacity [max_samples], positive or not. *)
Definition record_shape (max_samples : Z) (occ : list Z) (record : list Z) : Prop :=
  occ ≠ [] ∧
  ∃ samples, record = Z.of_nat (length occ) :: samples ∧
    samples ≠ [] ∧
    (∀ line_id, line_id ∈ samples → line_id ∈ occ) ∧
    (max_samples ≤ 1 → samples = take 1 occ) ∧
    (Z.of_nat (length occ) ≤ max_samples → samples = occ) ∧
    (1 ≤ max_samples →
       length samples = Nat.min (length occ) (Z.to_nat max_samples)) ∧
    (1 ≤ max_samples ≤ Z.of_nat (length occ) →
       samples !! Z.to_nat (max_samples - 1) = occ !! Z.to_nat (max_samples - 1)).

Definition index_shape (max_samples : Z) (calls : list (Z * str))
    (word_index : gmap str (list Z)) : Prop :=
  ∀ phrase,
    match word_index !! phrase with
    | None => occurrences phrase calls = []
    | Some record => record_shape max_samples (occurrences phrase calls) record
    end.

(** In exact arithmetic: every value stored in the probability table reads
    as a probability. *)
Definition table_unit (parse : str → option Q) (dbm : gmap str str) : Prop :=
  ∀ key v, dbm !! key = Some v → v ≠ [] → ∃ q, parse v = Some q ∧ (0 <= q <= 1)%Q.

Section RunNotions.
Context {U : Unicode} {C : Collaborators} {R : PyRandom} {F : PyFloat}.

(** The candidate phrases of a stripped line, in the order of lines 150-186. *)
Definition line_phrases (b : MakeIndexBatch) (line : str) : list str :=
  (extract (focus_keywords b) (max_ngram b) (PyStr.split 32 (mod_sentence_of line))
     ([], ∅, 0)).1.1.

(** The phrases with which the line is indexed (lines 187-197). *)
Definition indexed_phrases (b : MakeIndexBatch) (line : str) : list str :=
  match rank_phrases b (line_phrases b line) with
  | Ok ranked => slice_to (max_words b) ranked
  | Raise _ => []
  end.

(** The [Update] calls of a run over the accepted lines [lines], numbered
    from [n] on. *)
Fixpoint run_calls (b : MakeIndexBatch) (n : Z) (lines : list str) : list (Z * str) :=
  match lines with
  | [] => []
  | line :: lines' =>
      ((λ phrase, (n, phrase)) <$> indexed_phrases b line) ++ run_calls b (n + 1) lines'
  end.

(** The options of a run, which processing a line leaves alone. *)
Definition same_config (b b' : MakeIndexBatch) : Prop :=
  max_words b = max_words b' ∧ max_ngram b = max_ngram b'
  ∧ max_samples b = max_samples b' ∧ phrase_prob_dbm b = phrase_prob_dbm b'
  ∧ focus_keywords b = focus_keywords b'.

(** The object as [Run] hands it to [ProcessRecords] (lines 63-71). *)
Definition prepared (b : MakeIndexBatch) : MakeIndexBatch :=
  let b := if bool_decide (phrase_prob_path b = []) then b else open_phrase_prob b in
  let b := if bool_decide (keywords_path b = []) then b else ReadKeywords b in
  set_output_dbm ∅ b.
End RunNotions.

(** ** More concrete inputs *)

(** Decimal numerals with an optional minus sign. *)
Definition parse_signed (s : str) : option Q :=
  match s with
  | 45%N :: s' => Qopp <$> parse_decimal s'
  | _ => parse_decimal s
  end.

(** A table with a negative value, and one with a value that is no number. *)
Definition signed_table : gmap str str :=
  list_to_map [(lit "up", lit "0.5"); (lit "down", lit "-0.5")].

Definition broken_table : gmap str str :=
  list_to_map [(lit "the cat", lit "n/a")].

(** The first line of the scenario with another translation, and in capitals. *)
Definition other_translation : str := lit "The cat sat." ++ 9%N :: lit "le chat".
Definition shouted_line : str := lit "THE CAT SAT." ++ 9%N :: lit "NEKO GA SUWAT".

(** A keyword file of two blank lines, and a run that reads it. *)
Definition blank_file_tools : Collaborators :=
  {| PrimaryHash := poly_hash;
     Tokenize := λ _ text _ _, PyStr.split 32 text;
     open_dbm := λ _, ∅;
     open_lines := λ _, [[10%N]; [32%N; 9%N; 10%N]] |}.

Definition keyword_batch : MakeIndexBatch (R := lcg) :=
  mkBatch (R := lcg) (lit "out.tkh") [] (lit "keywords.txt") 50 3 100 1000000 ∅ None ∅ ∅ 19780211.

(** * Properties *)

(** ** The reservoir *)

Lemma setitem_in_range {A} (l : list A) (i : Z) (v : A) :
  0 ≤ i < Z.of_nat (length l) → setitem l i v = Ok (<[Z.to_nat i := v]> l).
Proof.
  intros Hi. unfold setitem.
  destruct (Z.leb_spec 0 i), (Z.ltb_spec i (Z.of_nat (length l))); simpl; try lia.
  reflexivity.
Qed.

Section Reservoir.
Context {R : PyRandom}.

Lemma update_fresh (ms line_id : Z) (phrase : str) (idx : gmap str (list Z)) (g : rng) :
  idx !! phrase = None →
  update ms line_id phrase (idx, g) = Ok (<[phrase := [1; line_id]]> idx, g).
Proof. intros Hnone. unfold update. rewrite Hnone. reflexivity. Qed.

Lemma update_append (ms line_id : Z) (phrase : str) (idx : gmap str (list Z)) (g : rng)
    (count : Z) (samples : list Z) :
  idx !! phrase = Some (count :: samples) →
  Z.of_nat (length samples) < ms →
  update ms line_id phrase (idx, g)
  = Ok (<[phrase := (count + 1) :: samples ++ [line_id]]> idx, g).
Proof.
  intros Hrec Hlen. unfold update. rewrite Hrec.
  destruct (Z.leb_spec (Z.of_nat (length (count :: samples))) ms) as [_|Hgt];
    [|simpl in Hgt; lia].
  reflexivity.
Qed.

Lemma update_full (ms line_id : Z) (phrase : str) (idx : gmap str (list Z)) (g : rng)
    (count : Z) (samples : list Z) :
  idx !! phrase = Some (count :: samples) →
  ms ≤ Z.of_nat (length samples) →
  0 ≤ count →
  let draw := randint g 1 (count + 1) in
  update ms line_id phrase (idx, g)
  = Ok (<[phrase := (count + 1) ::
                    (if draw.1 <? ms then <[Z.to_nat (draw.1 - 1) := line_id]> samples
                     else samples)]> idx, draw.2).
Proof.
  intros Hrec Hlen Hcount draw. unfold update. rewrite Hrec.
  destruct (Z.leb_spec (Z.of_nat (length (count :: samples))) ms) as [Hle|_];
    [simpl in Hle; lia|].
  unfold py_randint.
  destruct (Z.leb_spec 1 (count + 1)) as [Hr|]; [|lia].
  pose proof (randint_range g 1 (count + 1) Hr) as Hdraw.
  fold draw in Hdraw. simpl.
  change (randint g 1 (count + 1)) with draw.
  destruct draw as [r g'] eqn:Hd. simpl in *.
  destruct (Z.ltb_spec r ms) as [Hlt|Hge]; simpl.
  - rewrite setitem_in_range by (simpl; lia). simpl.
    replace (Z.to_nat r) with (S (Z.to_nat (r - 1))) by lia.
    reflexivity.
  - reflexivity.
Qed.

Lemma occurrences_snoc (phrase : str) (calls : list (Z * str)) (line_id : Z) (p : str) :
  occurrences phrase (calls ++ [(line_id, p)])
  = occurrences phrase calls ++ (if decide (p = phrase) then [line_id] else []).
Proof.
  unfold occurrences. rewrite filter_app, fmap_app. f_equal.
  rewrite filter_cons, filter_nil. simpl.
  destruct (decide (p = phrase)); reflexivity.
Qed.

Lemma updates_snoc (ms : Z) (calls : list (Z * str)) (line_id : Z) (p : str)
    (index : gmap str (list Z) * rng) :
  updates ms (calls ++ [(line_id, p)]) index
  = updates ms calls index ≫= update ms line_id p.
Proof.
  revert index. induction calls as [|[i q] calls IH]; intros index; simpl.
  - destruct (update ms line_id p index); reflexivity.
  - destruct (update ms i q index) as [index'|e]; simpl; [apply IH|reflexivity].
Qed.

(** The updates that one line makes are such a sequence of calls. *)
Lemma update_all_updates (ms line_id : Z) (phrases : list str)
    (index : gmap str (list Z) * rng) :
  update_all ms line_id phrases index
  = updates ms ((λ phrase, (line_id, phrase)) <$> phrases) index.
Proof.
  revert index. induction phrases as [|p phrases IH]; intros index; [reflexivity|].
  simpl. destruct (update ms line_id p index) as [index'|e]; simpl; [apply IH|reflexivity].
Qed.

Lemma update_index_ok (ms : Z) (calls : list (Z * str)) (line_id : Z) (p : str)
    (idx : gmap str (list Z)) (g : rng) :
  1 ≤ ms → index_ok ms calls idx →
  ∃ idx' g', update ms line_id p (idx, g) = Ok (idx', g') ∧
             index_ok ms (calls ++ [(line_id, p)]) idx'.
Proof.
  intros Hms Hok. pose proof (Hok p) as Hp.
  destruct (idx !! p) as [record|] eqn:Hrec.
  - destruct Hp as (Hne & samples & -> & Hlen & Hocc & Hall).
    set (occ := occurrences p calls) in *.
    destruct (Z.lt_ge_cases (Z.of_nat (length samples)) ms) as [Hlt|Hge].
    + eexists _, _. split; [apply (update_append _ _ _ _ _ _ _ Hrec Hlt)|].
      intros q. rewrite occurrences_snoc. destruct (decide (p = q)) as [<-|Hpq].
      * rewrite lookup_insert_eq. fold occ. split; [by destruct occ|].
        exists (samples ++ [line_id]). rewrite !length_app. simpl.
        split; [f_equal; lia|]. split; [lia|]. split; [lia|].
        intros Hc. rewrite Hall by lia. reflexivity.
      * rewrite lookup_insert_ne by done. rewrite app_nil_r. apply Hok.
    + eexists _, _. split.
      { apply (update_full _ _ _ _ _ _ _ Hrec Hge). lia. }
      intros q. rewrite occurrences_snoc. destruct (decide (p = q)) as [<-|Hpq].
      * rewrite lookup_insert_eq. fold occ. split; [by destruct occ|].
        eexists. rewrite length_app. simpl. split; [f_equal; lia|].
        assert (length (if (randint g 1 (Z.of_nat (length occ) + 1)).1 <? ms
                        then <[Z.to_nat ((randint g 1 (Z.of_nat (length occ) + 1)).1 - 1)
                               := line_id]> samples
                        else samples) = length samples) as ->.
        { destruct (_ <? _); [apply length_insert|reflexivity]. }
        split; [lia|]. split; [lia|]. intros Hc. lia.
      * rewrite lookup_insert_ne by done. rewrite app_nil_r. apply Hok.
  - eexists _, _. split; [apply (update_fresh _ _ _ _ _ Hrec)|].
    intros q. rewrite occurrences_snoc. destruct (decide (p = q)) as [<-|Hpq].
    + rewrite lookup_insert_eq, Hp. simpl. split; [done|].
      exists [line_id]. simpl. split; [done|]. split; [lia|]. split; [lia|]. done.
    + rewrite lookup_insert_ne by done. rewrite app_nil_r. apply Hok.
Qed.

Lemma updates_index_ok (ms : Z) (calls : list (Z * str)) (g : rng) :
  1 ≤ ms →
  ∃ idx g', updates ms calls (∅, g) = Ok (idx, g') ∧ index_ok ms calls idx.
Proof.
  intros Hms. induction calls as [|[line_id p] calls IH] using rev_ind.
  - exists ∅, g. split; [reflexivity|]. intros q. rewrite lookup_empty. reflexivity.
  - destruct IH as (idx & g1 & Hrun & Hok).
    destruct (update_index_ok ms calls line_id p idx g1 Hms Hok) as (idx' & g' & Hupd & Hok').
    exists idx', g'. split; [|exact Hok'].
    rewrite updates_snoc, Hrun. exact Hupd.
Qed.

(** C2, for a reservoir of capacity at least one.  Whatever [Update] calls
    were made, starting from the empty index, they all succeed, and every
    record then has a count equal to the number of times its phrase was
    indexed, at most [max_samples] samples, no more samples than its count,
    and, as long as the count does not exceed [max_samples], exactly the line
    ids of all the occurrences, in order. *)
Theorem reservoir_bound (ms : Z) (calls : list (Z * str)) (g : rng) :
  1 ≤ ms →
  ∃ word_index g', updates ms calls (∅, g) = Ok (word_index, g') ∧
    ∀ phrase record, word_index !! phrase = Some record →
      count_of record = Z.of_nat (length (occurrences phrase calls)) ∧
      Z.of_nat (length (samples_of record)) ≤ ms ∧
      Z.of_nat (length (samples_of record)) ≤ count_of record ∧
      (count_of record ≤ ms → samples_of record = occurrences phrase calls).
Proof.
  intros Hms. destruct (updates_index_ok ms calls g Hms) as (idx & g' & Hrun & Hok).
  exists idx, g'. split; [exact Hrun|]. intros phrase record Hrec.
  pose proof (Hok phrase) as Hp. rewrite Hrec in Hp.
  destruct Hp as (_ & samples & -> & Hlen & Hocc & Hall). simpl.
  repeat split; [lia|lia|exact Hall].
Qed.
(** A full reservoir never gives up its last sample, whatever is drawn. *)
Lemma full_reservoir_keeps_last_sample (ms line_id : Z) (phrase : str)
    (idx : gmap str (list Z)) (g : rng) (count : Z) (samples : list Z) :
  idx !! phrase = Some (count :: samples) →
  Z.of_nat (length samples) = ms → 0 ≤ count →
  ∃ idx' g' samples',
    update ms line_id phrase (idx, g) = Ok (idx', g')
    ∧ idx' !! phrase = Some ((count + 1) :: samples')
    ∧ length samples' = length samples
    ∧ samples' !! (length samples - 1)%nat = samples !! (length samples - 1)%nat.
Proof.
  intros Hrec Hlen Hcount. eexists _, _, _. split.
  { apply (update_full _ _ _ _ _ _ _ Hrec); lia. }
  rewrite lookup_insert_eq. split; [reflexivity|].
  pose proof (randint_range g 1 (count + 1) ltac:(lia)) as Hdraw.
  destruct (Z.ltb_spec (randint g 1 (count + 1)).1 ms) as [Hlt|_]; [|done].
  split; [apply length_insert|]. apply list_lookup_insert_ne. lia.
Qed.
End Reservoir.

(** With capacity 0 the first occurrence of a phrase is kept all the same:
    the record has one sample. *)
Lemma reservoir_bound_zero_capacity :
  ¬ (∀ word_index g', updates (R := lcg) 0 [(0, lit "cat")] (∅, 0) = Ok (word_index, g') →
       ∀ phrase record, word_index !! phrase = Some record →
         Z.of_nat (length (samples_of record)) ≤ 0).
Proof.
  intros Hclaim.
  specialize (Hclaim {[lit "cat" := [1; 0]]} 0 eq_refl (lit "cat") [1; 0]).
  rewrite lookup_singleton_eq in Hclaim. specialize (Hclaim eq_refl). simpl in Hclaim. lia.
Qed.

Lemma reservoir_bound_witness :
  ∃ word_index g', updates (R := lcg) 2 cat_calls (∅, 0) = Ok (word_index, g') ∧
    ∀ phrase record, word_index !! phrase = Some record →
      count_of record = Z.of_nat (length (occurrences phrase cat_calls)) ∧
      Z.of_nat (length (samples_of record)) ≤ 2 ∧
      Z.of_nat (length (samples_of record)) ≤ count_of record ∧
      (count_of record ≤ 2 → samples_of record = occurrences phrase cat_calls).
Proof. apply (reservoir_bound (R := lcg) 2 cat_calls 0). lia. Defined.

(** C1.  Capacity 2, a record with count 2 and samples 0 and 1, and line 2
    for the same phrase: the generator draws 2 from 1..3, and the code leaves
    the samples as they were, where algorithm R replaces the second one. *)
Theorem update_draw_equal_to_capacity :
  randint (PyRandom := lcg) 1 1 3 = (2, 7806831264735756412) ∧
  update (R := lcg) 2 2 (lit "cat") ({[lit "cat" := [2; 0; 1]]}, 1)
  = Ok ({[lit "cat" := [3; 0; 1]]}, 7806831264735756412).
Proof. split; vm_compute; reflexivity. Qed.

(** ** Text *)

Lemma lstrip_spec (s : str) :
  ∃ pre, s = pre ++ PyStr.lstrip s ∧ Forall (λ c, PyStr.isspace c = true) pre.
Proof.
  induction s as [|c s (pre & Hs & Hpre)]; simpl.
  - exists []. split; [reflexivity|constructor].
  - destruct (PyStr.isspace c) eqn:Hc.
    + exists (c :: pre). split; [simpl; congruence|by constructor].
    + exists []. split; [reflexivity|constructor].
Qed.

Lemma strip_spec (line : str) :
  ∃ pre post, line = pre ++ PyStr.strip line ++ post
    ∧ Forall (λ c, PyStr.isspace c = true) pre
    ∧ Forall (λ c, PyStr.isspace c = true) post.
Proof.
  destruct (lstrip_spec line) as (pre & Hl & Hpre).
  destruct (lstrip_spec (reverse (PyStr.lstrip line))) as (post & Hr & Hpost).
  exists pre, (reverse post). split; [|split; [exact Hpre|]].
  - unfold PyStr.strip, PyStr.rstrip. rewrite <- reverse_app, <- Hr, reverse_involutive.
    exact Hl.
  - apply Forall_reverse. exact Hpost.
Qed.

Lemma lit_inj (s t : string) : lit s = lit t → s = t.
Proof.
  unfold lit. intros Heq.
  rewrite <- (string_of_list_ascii_of_string s), <- (string_of_list_ascii_of_string t).
  f_equal. revert Heq. generalize (list_ascii_of_string t).
  induction (list_ascii_of_string s) as [|a l IH]; intros [|b l'] Heq;
    try discriminate; [reflexivity|].
  injection Heq as Hab Hl. f_equal; [|by apply IH].
  rewrite <- (ascii_N_embedding a), <- (ascii_N_embedding b). congruence.
Qed.

Lemma of_N_inj (m n : N) : PyStr.of_N m = PyStr.of_N n → m = n.
Proof.
  unfold PyStr.of_N. intros Heq%lit_inj.
  rewrite <- (DecimalN.Unsigned.of_to m), <- (DecimalN.Unsigned.of_to n).
  f_equal. apply (f_equal NilEmpty.uint_of_string) in Heq.
  rewrite !NilEmpty.usu in Heq. congruence.
Qed.

Lemma line_key_inj (i j : Z) : 0 ≤ i → 0 ≤ j → line_key i = line_key j → i = j.
Proof.
  intros Hi Hj. unfold line_key, PyStr.of_Z.
  destruct (Z.ltb_spec i 0), (Z.ltb_spec j 0); try lia.
  intros Heq. simpl in Heq. injection Heq as Heq.
  apply app_inv_tail in Heq. apply of_N_inj in Heq. lia.
Qed.

(** ** ProcessRecords *)

Lemma index_wf_insert (idx : gmap str (list Z)) (p : str) (count : Z) (samples : list Z) :
  index_wf idx → 0 ≤ count → index_wf (<[p := count :: samples]> idx).
Proof.
  intros Hwf Hc q c s. destruct (decide (p = q)) as [<-|Hpq].
  - rewrite lookup_insert_eq. intros [= <- _]. exact Hc.
  - rewrite lookup_insert_ne by done. apply Hwf.
Qed.

Section Records.
Context {U : Unicode} {C : Collaborators} {R : PyRandom} {F : PyFloat}.

Lemma update_wf (ms line_id : Z) (p : str) (idx : gmap str (list Z)) (g : rng) :
  index_wf idx →
  ∃ idx' g', update ms line_id p (idx, g) = Ok (idx', g') ∧ index_wf idx'.
Proof.
  intros Hwf. destruct (idx !! p) as [[|count samples]|] eqn:Hrec.
  - eexists _, _. split; [unfold update; rewrite Hrec; reflexivity|].
    apply index_wf_insert; [exact Hwf|lia].
  - pose proof (Hwf _ _ _ Hrec) as Hc.
    destruct (Z.lt_ge_cases (Z.of_nat (length samples)) ms) as [Hlt|Hge].
    + eexists _, _. split; [apply (update_append _ _ _ _ _ _ _ Hrec Hlt)|].
      apply index_wf_insert; [exact Hwf|lia].
    + eexists _, _. split; [apply (update_full _ _ _ _ _ _ _ Hrec Hge Hc)|].
      apply index_wf_insert; [exact Hwf|lia].
  - eexists _, _. split; [apply (update_fresh _ _ _ _ _ Hrec)|].
    apply index_wf_insert; [exact Hwf|lia].
Qed.

Lemma update_all_wf (ms line_id : Z) (phrases : list str) (idx : gmap str (list Z)) (g : rng) :
  index_wf idx →
  ∃ idx' g', update_all ms line_id phrases (idx, g) = Ok (idx', g') ∧ index_wf idx'.
Proof.
  revert idx g. induction phrases as [|p phrases IH]; intros idx g Hwf.
  - by exists idx, g.
  - change (update_all ms line_id (p :: phrases) (idx, g))
      with (update ms line_id p (idx, g) ≫= update_all ms line_id phrases).
    destruct (update_wf ms line_id p idx g Hwf) as (idx1 & g1 & -> & Hwf1).
    apply IH, Hwf1.
Qed.

Lemma mapM_total {A B} (f : A → result B) (l : list A) :
  (∀ x, ∃ y, f x = Ok y) → ∃ k, mapM f l = Ok k.
Proof.
  intros Hf. induction l as [|x l [k Hk]]; simpl.
  - by exists [].
  - destruct (Hf x) as [y Hy]. exists (y :: k). rewrite Hy. simpl. rewrite Hk. reflexivity.
Qed.

Lemma rank_phrases_total (b : MakeIndexBatch) (phrases : list str) :
  scoring_ok b → ∃ ranked, rank_phrases b phrases = Ok ranked.
Proof.
  unfold scoring_ok, rank_phrases. intros Hok.
  destruct (_ >? _); [|by eexists].
  destruct (phrase_prob_dbm b) as [dbm|]; [|by eexists].
  destruct (mapM_total (λ phrase, GetPhraseProb dbm phrase ≫= λ prob, mret (phrase, prob)) phrases)
    as [k Hk].
  { intros w. destruct (Hok w) as [p Hp]. exists (w, p). rewrite Hp. reflexivity. }
  rewrite Hk. by eexists.
Qed.

Lemma seen_line_skipped (st : state) (line : str) :
  PrimaryHash (mod_sentence_of (PyStr.strip line)) ∈ sentence_hashes st →
  process_line st line = Ok st.
Proof.
  intros Hseen. unfold process_line.
  destruct (bool_decide (PyStr.strip line = [])); [reflexivity|].
  rewrite (bool_decide_eq_true_2 _ Hseen). reflexivity.
Qed.

Lemma blank_line_skipped (st : state) (line : str) :
  PyStr.strip line = [] → process_line st line = Ok st.
Proof.
  intros Hblank. unfold process_line.
  rewrite (bool_decide_eq_true_2 _ Hblank). reflexivity.
Qed.

Lemma process_line_accepted (st : state) (line : str) :
  PyStr.strip line ≠ [] →
  PrimaryHash (mod_sentence_of (PyStr.strip line)) ∉ sentence_hashes st →
  index_wf (word_index (self st)) → scoring_ok (self st) →
  ∃ st', process_line st line = Ok st'
    ∧ output_dbm (self st')
      = <[line_key (num_lines st) := PyStr.strip line]> (output_dbm (self st))
    ∧ num_lines st' = num_lines st + 1
    ∧ sentence_hashes st'
      = {[PrimaryHash (mod_sentence_of (PyStr.strip line))]} ∪ sentence_hashes st
    ∧ index_wf (word_index (self st')) ∧ scoring_ok (self st').
Proof.
  intros Hline Hnew Hwf Hok. unfold process_line.
  rewrite (bool_decide_eq_false_2 _ Hline), (bool_decide_eq_false_2 _ Hnew).
  destruct (extract _ _ _ _) as [[phrases uniq] nw].
  destruct (rank_phrases_total (self st) phrases Hok) as [ranked ->]. simpl.
  destruct (update_all_wf (max_samples (self st)) (num_lines st)
              (slice_to (max_words (self st)) ranked)
              (word_index (self st)) (random (self st)) Hwf)
    as (idx' & g' & -> & Hwf').
  simpl. eexists. split; [reflexivity|]. simpl. repeat split; assumption.
Qed.

Lemma process_lines_spec (stdin : list str) (st : state) :
  index_wf (word_index (self st)) → scoring_ok (self st) →
  ∃ st', process_lines st stdin = Ok st'
    ∧ num_lines st' = num_lines st + Z.of_nat (length (accepted (sentence_hashes st) stdin))
    ∧ output_dbm (self st')
      = store_lines (num_lines st) (accepted (sentence_hashes st) stdin) (output_dbm (self st)).
Proof.
  revert st. induction stdin as [|line stdin IH]; intros st Hwf Hok.
  - exists st. simpl. split; [reflexivity|]. split; [lia|reflexivity].
  - change (process_lines st (line :: stdin))
      with (process_line st line ≫= λ st1, process_lines st1 stdin).
    simpl accepted.
    destruct (decide (PyStr.strip line = [])) as [Hblank|Hline].
    { rewrite (blank_line_skipped st line Hblank), (bool_decide_eq_true_2 _ Hblank).
      apply IH; assumption. }
    rewrite (bool_decide_eq_false_2 _ Hline).
    destruct (decide (PrimaryHash (mod_sentence_of (PyStr.strip line)) ∈ sentence_hashes st))
      as [Hseen|Hnew].
    { rewrite (seen_line_skipped st line Hseen), (bool_decide_eq_true_2 _ Hseen).
      apply IH; assumption. }
    rewrite (bool_decide_eq_false_2 _ Hnew).
    destruct (process_line_accepted st line Hline Hnew Hwf Hok)
      as (st1 & -> & Hdbm & Hnum & Hseen & Hwf1 & Hok1).
    destruct (IH st1 Hwf1 Hok1) as (st' & Hrun & Hnum' & Hdbm').
    exists st'. split; [exact Hrun|]. rewrite Hnum', Hdbm', Hnum, Hdbm, Hseen. simpl.
    split; [lia|reflexivity].
Qed.
End Records.

Lemma store_lines_lookup_other (n : Z) (lines : list str) (dbm : gmap str str) (key : str) :
  (∀ i, (i < length lines)%nat → key ≠ line_key (n + Z.of_nat i)) →
  store_lines n lines dbm !! key = dbm !! key.
Proof.
  revert n dbm. induction lines as [|line lines IH]; intros n dbm Hkey; simpl; [reflexivity|].
  rewrite IH.
  - apply lookup_insert_ne. intros Heq. apply (Hkey 0%nat); [simpl; lia|].
    rewrite Z.add_0_r. by symmetry.
  - intros i Hi. replace (n + 1 + Z.of_nat i) with (n + Z.of_nat (S i)) by lia.
    apply Hkey. simpl. lia.
Qed.

Lemma store_lines_lookup (n : Z) (lines : list str) (dbm : gmap str str) (i : nat) (line : str) :
  0 ≤ n → lines !! i = Some line →
  store_lines n lines dbm !! line_key (n + Z.of_nat i) = Some line.
Proof.
  revert n dbm i. induction lines as [|l lines IH]; intros n dbm i Hn Hi; [done|].
  destruct i as [|i]; simpl in *.
  - injection Hi as ->. rewrite Z.add_0_r, store_lines_lookup_other.
    + apply lookup_insert_eq.
    + intros j _ Heq. apply line_key_inj in Heq; lia.
  - replace (n + Z.of_nat (S i)) with (n + 1 + Z.of_nat i) by lia.
    apply IH; [lia|exact Hi].
Qed.

Lemma store_lines_keys (n : Z) (lines : list str) (dbm : gmap str str) (key : str) :
  is_Some (store_lines n lines dbm !! key) →
  is_Some (dbm !! key) ∨ ∃ i, (i < length lines)%nat ∧ key = line_key (n + Z.of_nat i).
Proof.
  revert n dbm. induction lines as [|line lines IH]; intros n dbm Hsome; simpl in *.
  - by left.
  - destruct (IH _ _ Hsome) as [Hins|(i & Hi & ->)].
    + destruct (decide (line_key n = key)) as [<-|Hne].
      * right. exists 0%nat. split; [lia|]. by rewrite Z.add_0_r.
      * left. by rewrite lookup_insert_ne in Hins.
    + right. exists (S i). split; [lia|]. f_equal. lia.
Qed.

Section RecordClaims.
Context {U : Unicode} {C : Collaborators} {R : PyRandom} {F : PyFloat}.

(** C8, as the code has it.  An accepted line is stored under the key of
    the current line number after [strip()]: the stored value is the line
    without its leading and trailing whitespace (the line feed included), and
    everything between, tabs and later fields included, is stored as read. *)
Theorem stored_line_is_stripped_line (st : state) (line : str) :
  PyStr.strip line ≠ [] →
  PrimaryHash (mod_sentence_of (PyStr.strip line)) ∉ sentence_hashes st →
  index_wf (word_index (self st)) → scoring_ok (self st) →
  ∃ st', process_line st line = Ok st'
    ∧ output_dbm (self st') !! line_key (num_lines st) = Some (PyStr.strip line)
    ∧ ∃ pre post, line = pre ++ PyStr.strip line ++ post
        ∧ Forall (λ c, PyStr.isspace c = true) pre
        ∧ Forall (λ c, PyStr.isspace c = true) post.
Proof.
  intros Hline Hnew Hwf Hok.
  destruct (process_line_accepted st line Hline Hnew Hwf Hok) as (st' & Hrun & Hdbm & _).
  exists st'. split; [exact Hrun|]. split; [|apply strip_spec].
  rewrite Hdbm. apply lookup_insert_eq.
Qed.

(** C9.  A line whose normalised sentence hashes to a value already in the
    set of seen hashes leaves the whole state of the run as it was: no record
    is written, the line number, the word counter, the seen hashes, the index
    and the random generator are unchanged. *)
Theorem duplicate_line_skipped (st : state) (line : str) :
  PrimaryHash (mod_sentence_of (PyStr.strip line)) ∈ sentence_hashes st →
  process_line st line = Ok st.
Proof. apply seen_line_skipped. Qed.

(** C10.  From a fresh run, the store after [ProcessRecords] holds the
    [i]-th accepted line (blank and duplicate lines are not accepted) under
    the key [[i]], for [i] = 0, 1, 2, ... without gaps, whether or not the line
    has candidate phrases, and it holds nothing else; the line counter ends
    at the number of accepted lines. *)
Theorem line_ids_consecutive (b : MakeIndexBatch) (stdin : list str) :
  output_dbm b = ∅ → index_wf (word_index b) → scoring_ok b →
  ∃ st', process_lines (mkState b 0 0 ∅) stdin = Ok st'
    ∧ num_lines st' = Z.of_nat (length (accepted ∅ stdin))
    ∧ (∀ i line, accepted ∅ stdin !! i = Some line →
         output_dbm (self st') !! line_key (Z.of_nat i) = Some line)
    ∧ (∀ key, is_Some (output_dbm (self st') !! key) →
         ∃ i, (i < length (accepted ∅ stdin))%nat ∧ key = line_key (Z.of_nat i)).
Proof.
  intros Hempty Hwf Hok.
  destruct (process_lines_spec stdin (mkState b 0 0 ∅) Hwf Hok) as (st' & Hrun & Hnum & Hdbm).
  simpl in Hnum, Hdbm. rewrite Hempty in Hdbm.
  exists st'. split; [exact Hrun|]. split; [lia|]. split.
  - intros i line Hi. rewrite Hdbm. apply (store_lines_lookup 0); [lia|exact Hi].
  - intros key Hkey. rewrite Hdbm in Hkey.
    destruct (store_lines_keys 0 _ _ _ Hkey) as [Habs|Hex]; [|exact Hex].
    rewrite lookup_empty in Habs. by destruct Habs.
Qed.
End RecordClaims.

Lemma index_wf_empty : index_wf ∅.
Proof. intros p c s. rewrite lookup_empty. discriminate. Qed.

(** The stored value of a line with surrounding whitespace is not the line
    as read. *)
Lemma stored_line_differs_from_raw_line :
  ¬ (∀ st', process_line (U := ascii_text) (C := plain_tools) (F := exact parse_decimal)
              fresh_state padded_line = Ok st' →
            output_dbm (self st') !! line_key 0 = Some padded_line).
Proof.
  intros Hclaim.
  destruct (process_line_accepted (U := ascii_text) (C := plain_tools) (F := exact parse_decimal)
              fresh_state padded_line)
    as (st' & Hrun & Hdbm & _).
  - vm_compute. discriminate.
  - apply not_elem_of_empty.
  - apply index_wf_empty.
  - exact I.
  - specialize (Hclaim st' Hrun). rewrite Hdbm in Hclaim.
    simpl num_lines in Hclaim. rewrite lookup_insert_eq in Hclaim.
    vm_compute in Hclaim. discriminate.
Qed.

Lemma stored_line_is_stripped_line_witness :
  ∃ st', process_line (U := ascii_text) (C := plain_tools) (F := exact parse_decimal)
           fresh_state padded_line = Ok st'
    ∧ output_dbm (self st') !! line_key (num_lines fresh_state) = Some (PyStr.strip padded_line)
    ∧ ∃ pre post, padded_line = pre ++ PyStr.strip padded_line ++ post
        ∧ Forall (λ c, PyStr.isspace c = true) pre
        ∧ Forall (λ c, PyStr.isspace c = true) post.
Proof.
  apply (stored_line_is_stripped_line (U := ascii_text) (C := plain_tools)
           (F := exact parse_decimal) fresh_state padded_line).
  - vm_compute. discriminate.
  - apply not_elem_of_empty.
  - apply index_wf_empty.
  - exact I.
Defined.

Lemma duplicate_line_skipped_witness :
  process_line (U := ascii_text) (C := plain_tools) (F := exact parse_decimal)
    seen_state scenario_line_1 = Ok seen_state.
Proof.
  apply (duplicate_line_skipped (U := ascii_text) (C := plain_tools)
           (F := exact parse_decimal) seen_state scenario_line_1).
  apply elem_of_singleton. vm_compute. reflexivity.
Defined.

Example accepted_sample :
  accepted (U := ascii_text) (C := plain_tools) ∅ sample_stdin
  = [scenario_line_1; lit "..."; lit "a dog"].
Proof. vm_compute. reflexivity. Qed.

(** ** The end-to-end scenario *)

Lemma slice_to_all {A} (k : Z) (l : list A) :
  Z.of_nat (length l) ≤ k → slice_to k l = l.
Proof.
  intros Hk. unfold slice_to. destruct (Z.leb_spec 0 k); [|lia].
  apply take_ge. lia.
Qed.

Section Scenario.
Context {U : Unicode} {C : Collaborators} {R : PyRandom} {F : PyFloat}.

Lemma rank_phrases_under_cap (b : MakeIndexBatch) (phrases : list str) :
  Z.of_nat (length phrases) ≤ max_words b → rank_phrases b phrases = Ok phrases.
Proof.
  intros Hcap. unfold rank_phrases.
  destruct (Z.gtb_spec (Z.of_nat (length phrases)) (max_words b)); [lia|reflexivity].
Qed.

Lemma scenario_first_line (op pp kp : str) (mw ms nb : Z) (dbm : option (gmap str str))
    (g : rng) :
  5 ≤ mw →
  process_line (mkState (mkBatch op pp kp mw 2 ms nb ∅ dbm ∅ ∅ g) 0 0 ∅) scenario_line_1
  = Ok (mkState (mkBatch op pp kp mw 2 ms nb {[line_key 0 := scenario_line_1]} dbm ∅
                   (scenario_index [1; 0]) g)
          1 5 {[PrimaryHash (lit "the cat sat.")]}).
Proof.
  intros Hmw. unfold process_line.
  change (PyStr.strip scenario_line_1) with scenario_line_1.
  change (mod_sentence_of scenario_line_1) with (lit "the cat sat.").
  rewrite bool_decide_eq_false_2 by discriminate.
  rewrite bool_decide_eq_false_2 by apply not_elem_of_empty.
  cbn [self focus_keywords max_ngram num_words].
  replace (extract ∅ 2 (PyStr.split 32 (lit "the cat sat.")) ([], ∅, 0))
    with (scenario_phrases, (list_to_set scenario_phrases : gset str), 5)
    by (vm_compute; reflexivity).
  rewrite rank_phrases_under_cap by (simpl; lia).
  cbn [mbind result_bind max_words max_samples num_lines word_index random self].
  rewrite slice_to_all by (simpl; lia).
  replace (update_all ms 0 scenario_phrases (∅, g)) with (Ok (scenario_index [1; 0], g))
    by (vm_compute; reflexivity).
  cbn. rewrite (right_id_L ∅ (∪)). reflexivity.
Qed.

Lemma scenario_second_line (op pp kp : str) (mw ms nb : Z) (dbm : option (gmap str str))
    (g : rng) (d : gmap str str) (seen : gset Z) :
  5 ≤ mw → 2 ≤ ms → PrimaryHash (lit "the cat sat") ∉ seen →
  process_line (mkState (mkBatch op pp kp mw 2 ms nb d dbm ∅ (scenario_index [1; 0]) g) 1 5 seen)
    scenario_line_2
  = Ok (mkState (mkBatch op pp kp mw 2 ms nb (<[line_key 1 := scenario_line_2]> d) dbm ∅
                   (scenario_index [2; 0; 1]) g)
          2 10 ({[PrimaryHash (lit "the cat sat")]} ∪ seen)).
Proof.
  intros Hmw Hms Hnew. unfold process_line.
  change (PyStr.strip scenario_line_2) with scenario_line_2.
  change (mod_sentence_of scenario_line_2) with (lit "the cat sat").
  rewrite bool_decide_eq_false_2 by discriminate.
  cbn [self sentence_hashes].
  rewrite (bool_decide_eq_false_2 _ Hnew).
  cbn [self focus_keywords max_ngram num_words].
  replace (extract ∅ 2 (PyStr.split 32 (lit "the cat sat")) ([], ∅, 5))
    with (scenario_phrases, (list_to_set scenario_phrases : gset str), 10)
    by (vm_compute; reflexivity).
  rewrite rank_phrases_under_cap by (simpl; lia).
  cbn [mbind result_bind max_words max_samples num_lines word_index random self].
  rewrite slice_to_all by (simpl; lia).
  unfold scenario_phrases, update_all.
  rewrite (update_append ms 1 _ _ g 1 [0]) by (first [vm_compute; reflexivity | simpl; lia]).
  cbn [mbind result_bind].
  rewrite (update_append ms 1 _ _ g 1 [0]) by (first [vm_compute; reflexivity | simpl; lia]).
  cbn [mbind result_bind].
  rewrite (update_append ms 1 _ _ g 1 [0]) by (first [vm_compute; reflexivity | simpl; lia]).
  cbn [mbind result_bind].
  rewrite (update_append ms 1 _ _ g 1 [0]) by (first [vm_compute; reflexivity | simpl; lia]).
  cbn [mbind result_bind].
  rewrite (update_append ms 1 _ _ g 1 [0]) by (first [vm_compute; reflexivity | simpl; lia]).
  cbn [mbind result_bind set_index set_output_dbm output_path phrase_prob_path keywords_path
       max_words max_ngram max_samples num_buckets output_dbm phrase_prob_dbm focus_keywords
       word_index random self num_lines app].
  reflexivity.
Qed.

(** C3, as the code has it.  With [max_ngram = 2] the two lines of the
    scenario normalise to two different texts, the first of which keeps
    its full stop.  If their hashes differ, both lines are stored, under [[0]]
    and [[1]], and each of the five phrases ends with count 2 and samples 0
    and 1; only if the hashes collide is one line stored and each count 1. *)
Theorem scenario_trailing_period_kept (op pp kp : str) (mw ms nb : Z)
    (dbm : option (gmap str str)) (g : rng) :
  5 ≤ mw → 2 ≤ ms →
  let b := mkBatch op pp kp mw 2 ms nb ∅ dbm ∅ ∅ g in
  let h1 := PrimaryHash (mod_sentence_of scenario_line_1) in
  let h2 := PrimaryHash (mod_sentence_of scenario_line_2) in
  mod_sentence_of scenario_line_1 = lit "the cat sat."
  ∧ mod_sentence_of scenario_line_2 = lit "the cat sat"
  ∧ (h1 ≠ h2 →
     ∃ b', ProcessRecords b [scenario_line_1; scenario_line_2] = Ok b'
       ∧ output_dbm b'
         = <[line_key 1 := scenario_line_2]> {[line_key 0 := scenario_line_1]}
       ∧ word_index b' = scenario_index [2; 0; 1])
  ∧ (h1 = h2 →
     ∃ b', ProcessRecords b [scenario_line_1; scenario_line_2] = Ok b'
       ∧ output_dbm b' = {[line_key 0 := scenario_line_1]}
       ∧ word_index b' = scenario_index [1; 0]).
Proof.
  intros Hmw Hms b h1 h2. split; [reflexivity|]. split; [reflexivity|].
  unfold ProcessRecords, process_lines. subst b.
  rewrite scenario_first_line by exact Hmw.
  cbn [mbind result_bind]. split; intros Hh.
  - rewrite scenario_second_line; [|exact Hmw|exact Hms|].
    + eexists. split; [reflexivity|]. split; reflexivity.
    + intros Hin%elem_of_singleton. apply Hh. symmetry. exact Hin.
  - rewrite seen_line_skipped.
    + eexists. split; [reflexivity|]. split; reflexivity.
    + apply elem_of_singleton. symmetry. exact Hh.
Qed.
End Scenario.

(** With a hash that tells the two normalised texts apart, the scenario
    does not end with one stored line. *)
Lemma scenario_lines_both_stored :
  ¬ scenario_claim (U := ascii_text) (C := plain_tools) (F := exact parse_decimal)
      (init (R := lcg) 0 (lit "out.tkh") [] [] 50 2 100 1000000).
Proof.
  intros (Hhash & b' & Hrun & Hsize & Hcounts).
  destruct (scenario_trailing_period_kept (U := ascii_text) (C := plain_tools) (R := lcg)
              (F := exact parse_decimal) (lit "out.tkh") [] [] 50 100 1000000 None
              19780211 ltac:(lia) ltac:(lia))
    as (_ & _ & Hboth & _).
  destruct Hboth as (b2 & Hrun2 & Hdbm & Hidx).
  - apply Z.eqb_neq. vm_compute. reflexivity.
  - change (init (R := lcg) 0 (lit "out.tkh") [] [] 50 2 100 1000000)
      with (mkBatch (R := lcg) (lit "out.tkh") [] [] 50 2 100 1000000 ∅ None ∅ ∅ 19780211)
      in Hrun.
    rewrite Hrun2 in Hrun. injection Hrun as <-.
    rewrite Hdbm in Hsize. vm_compute in Hsize. discriminate Hsize.
Qed.

Lemma scenario_trailing_period_kept_witness :
  let b := mkBatch (R := lcg) (lit "out.tkh") [] [] 50 2 100 1000000 ∅ None ∅ ∅ 19780211 in
  let h1 := PrimaryHash (Collaborators := plain_tools) (mod_sentence_of (U := ascii_text) scenario_line_1) in
  let h2 := PrimaryHash (Collaborators := plain_tools) (mod_sentence_of (U := ascii_text) scenario_line_2) in
  mod_sentence_of (U := ascii_text) scenario_line_1 = lit "the cat sat."
  ∧ mod_sentence_of (U := ascii_text) scenario_line_2 = lit "the cat sat"
  ∧ (h1 ≠ h2 →
     ∃ b', ProcessRecords (U := ascii_text) (C := plain_tools) (F := exact parse_decimal)
             b [scenario_line_1; scenario_line_2] = Ok b'
       ∧ output_dbm b'
         = <[line_key 1 := scenario_line_2]> {[line_key 0 := scenario_line_1]}
       ∧ word_index b' = scenario_index [2; 0; 1])
  ∧ (h1 = h2 →
     ∃ b', ProcessRecords (U := ascii_text) (C := plain_tools) (F := exact parse_decimal)
             b [scenario_line_1; scenario_line_2] = Ok b'
       ∧ output_dbm b' = {[line_key 0 := scenario_line_1]}
       ∧ word_index b' = scenario_index [1; 0]).
Proof.
  apply (scenario_trailing_period_kept (U := ascii_text) (C := plain_tools) (R := lcg)
           (F := exact parse_decimal) (lit "out.tkh") [] [] 50 100 1000000 None 19780211);
    lia.
Defined.

(** ** The phrase-probability model *)

Section Backoff.
Context {F : PyFloat}.

Lemma get_prob_absent (dbm : gmap str str) (key : str) :
  dbm !! key = None → get_prob dbm key = Ok (float_lit 0).
Proof. intros Hnone. unfold get_prob. rewrite Hnone. reflexivity. Qed.

Lemma get_prob_total (dbm : gmap str str) (key : str) :
  table_parses dbm → ∃ p, get_prob dbm key = Ok p.
Proof.
  intros Hwf. unfold get_prob.
  destruct (dbm !! key) as [[|c v]|] eqn:Hkey; [by eexists| |by eexists].
  destruct (Hwf key (c :: v) Hkey) as [x ->]; [done|]. by eexists.
Qed.

Lemma scan_windows_found (dbm : gmap str str) (tokens : list str) (ngram : nat)
    (indices : list nat) (ps acc : list float) :
  Forall2 (λ i p, get_prob dbm (window_phrase tokens ngram i) = Ok p ∧ fbool p = true)
    indices ps →
  scan_windows dbm tokens ngram indices acc = Ok (Some (acc ++ ps)).
Proof.
  intros Hall. revert acc. induction Hall as [|i p indices ps [Hp Ht] _ IH]; intros acc; simpl.
  - by rewrite app_nil_r.
  - fold (window_phrase tokens ngram i). rewrite Hp. simpl. rewrite Ht, IH, <- app_assoc.
    reflexivity.
Qed.

Lemma scan_windows_miss (dbm : gmap str str) (tokens : list str) (ngram : nat)
    (indices : list nat) (acc : list float) :
  table_parses dbm →
  (∃ i, i ∈ indices ∧ dbm !! window_phrase tokens ngram i = None) →
  scan_windows dbm tokens ngram indices acc = Ok None.
Proof.
  intros Hwf (i & Hi & Hnone). revert acc.
  induction indices as [|j indices IH]; intros acc; [by apply elem_of_nil in Hi|].
  simpl. fold (window_phrase tokens ngram j).
  destruct (get_prob_total dbm (window_phrase tokens ngram j) Hwf) as [p Hp].
  rewrite Hp. simpl. destruct (fbool p) eqn:Ht; [|reflexivity].
  apply IH. apply elem_of_cons in Hi as [->|Hi]; [|exact Hi].
  rewrite (get_prob_absent _ _ Hnone) in Hp. injection Hp as <-.
  rewrite fbool_zero in Ht. discriminate.
Qed.

Lemma sum_inverses_spec (ps : list float) (acc : float) :
  Forall (λ p, fbool p = true) ps →
  sum_inverses ps acc
  = Ok (foldl (λ inv_sum p, fadd inv_sum (fdiv (float_of_int 1) p)) acc ps).
Proof.
  intros Hall. revert acc. induction Hall as [|p ps Hp _ IH]; intros acc; simpl; [reflexivity|].
  unfold truediv. rewrite Hp. simpl. apply IH.
Qed.

Lemma combine_spec (tokens : list str) (ngram : nat) (ps : list float) (pen : float) :
  Forall (λ p, fbool p = true) ps → fbool (inverse_sum ps) = true →
  combine tokens ngram ps pen
  = Ok (pymax (fmul (fmul (harmonic_mean ps)
                       (fpow (float_lit (3 # 10)) (Z.of_nat (length tokens) - Z.of_nat ngram)))
                 pen) base_prob).
Proof.
  intros Hall Hsum. unfold combine. rewrite (sum_inverses_spec _ _ Hall). simpl.
  fold (inverse_sum ps). unfold truediv. rewrite Hsum. reflexivity.
Qed.

Lemma orders_S (dbm : gmap str str) (tokens : list str) (next : nat) (pen : float) :
  orders dbm tokens (S next) pen
  = if (length tokens <=? S next)%nat then
      get_prob dbm (PyStr.join 32 tokens) ≫= λ prob,
        if fbool prob then Ok (pymax prob base_prob)
        else orders dbm tokens next (fmul pen (float_lit (1 # 10)))
    else
      scan_windows dbm tokens (S next) (seq 0 (S (length tokens - S next))) [] ≫= λ found,
        match found with
        | Some probs => combine tokens (S next) probs pen
        | None => orders dbm tokens next (fmul pen (float_lit (1 # 10)))
        end.
Proof. reflexivity. Qed.

Lemma orders_missed (dbm : gmap str str) (tokens : list str) (ngram : nat) (pen : float) :
  order_missed dbm tokens (S ngram) →
  orders dbm tokens (S ngram) pen = orders dbm tokens ngram (fmul pen (float_lit (1 # 10))).
Proof.
  unfold order_missed. rewrite orders_S.
  destruct (length tokens <=? S ngram)%nat.
  - intros (p & -> & Hp). simpl. rewrite Hp. reflexivity.
  - intros ->. reflexivity.
Qed.

Lemma orders_skip (dbm : gmap str str) (tokens : list str) (ngram k : nat) (pen : float) :
  (∀ j, (ngram < j ≤ ngram + k)%nat → order_missed dbm tokens j) →
  orders dbm tokens (ngram + k) pen
  = orders dbm tokens ngram (Nat.iter k (λ p, fmul p (float_lit (1 # 10))) pen).
Proof.
  revert pen. induction k as [|k IH]; intros pen Hmiss.
  - rewrite Nat.add_0_r. reflexivity.
  - replace (ngram + S k)%nat with (S (ngram + k)) by lia.
    rewrite orders_missed by (apply Hmiss; lia).
    rewrite IH by (intros j Hj; apply Hmiss; lia).
    rewrite Nat.iter_succ_r. reflexivity.
Qed.

Lemma whole_phrase_window (tokens : list str) (ngram : nat) :
  (length tokens ≤ ngram)%nat → window_phrase tokens ngram 0 = PyStr.join 32 tokens.
Proof. intros Hlen. unfold window_phrase. rewrite drop_0, take_ge by lia. reflexivity. Qed.

Lemma orders_absent (dbm : gmap str str) (tokens : list str) (ngram : nat) (pen : float) :
  absent_everywhere dbm tokens → orders dbm tokens ngram pen = Ok base_prob.
Proof.
  intros Habs. revert pen. induction ngram as [|ngram IH]; intros pen; [reflexivity|].
  rewrite orders_S. destruct (Nat.leb_spec (length tokens) (S ngram)) as [Hle|_].
  - rewrite <- (whole_phrase_window tokens (S ngram) Hle), (get_prob_absent _ _ (Habs _ _)).
    simpl. rewrite fbool_zero. apply IH.
  - simpl seq. simpl scan_windows. fold (window_phrase tokens (S ngram) 0).
    rewrite (get_prob_absent _ _ (Habs _ _)). simpl. rewrite fbool_zero. apply IH.
Qed.

Lemma GetPhraseProb_absent (dbm : gmap str str) (word : str) :
  absent_everywhere dbm (PyStr.split 32 word) → GetPhraseProb dbm word = Ok base_prob.
Proof.
  intros Habs. unfold GetPhraseProb. destruct (bool_decide _); [reflexivity|].
  by apply orders_absent.
Qed.
(** C6.  Take a phrase of [n] tokens and an order [ngram < n] reached after
    the [k] higher orders were missed.  If the table reads as numbers and one
    of the windows of [ngram] tokens is absent from it, the order is missed
    and the estimate continues at the next order with the penalty multiplied
    once more by 0.1.  If every window is found, with probabilities [probs]
    whose inverses do not sum to zero, the estimate is
    [max(harmonic_mean * 0.3 ** (n - ngram) * 0.1^k, base_prob)]. *)
Theorem backoff_order (dbm : gmap str str) (word : str) (ngram k : nat) :
  let tokens := PyStr.split 32 word in
  let n := length tokens in
  (1 ≤ ngram < n)%nat → (ngram + k = Nat.min 3 n)%nat →
  (∀ j, (ngram < j ≤ Nat.min 3 n)%nat → order_missed dbm tokens j) →
  (table_parses dbm →
   (∃ i, (i ≤ n - ngram)%nat ∧ dbm !! window_phrase tokens ngram i = None) →
   GetPhraseProb dbm word = orders dbm tokens (ngram - 1) (penalty (S k)))
  ∧ (∀ probs,
       length probs = (n - ngram + 1)%nat →
       (∀ i p, probs !! i = Some p →
          get_prob dbm (window_phrase tokens ngram i) = Ok p ∧ fbool p = true) →
       fbool (inverse_sum probs) = true →
       GetPhraseProb dbm word
       = Ok (pymax (fmul (fmul (harmonic_mean probs)
                            (fpow (float_lit (3 # 10)) (Z.of_nat n - Z.of_nat ngram)))
                      (penalty k)) base_prob)).
Proof.
  intros tokens n Hn Hk Hmiss.
  assert (GetPhraseProb dbm word = orders dbm tokens ngram (penalty k)) as Hreach.
  { unfold GetPhraseProb. fold tokens. rewrite bool_decide_eq_false_2.
    - fold n. rewrite <- Hk. apply orders_skip. intros j Hj. apply Hmiss. lia.
    - intros Hnil. subst n. rewrite Hnil in Hn. simpl in Hn. lia. }
  rewrite Hreach. destruct ngram as [|ngram]; [lia|].
  rewrite orders_S. fold n. destruct (Nat.leb_spec n (S ngram)) as [|_]; [lia|].
  split.
  - intros Hwf (i & Hi & Hnone).
    rewrite (scan_windows_miss dbm tokens (S ngram) _ [] Hwf).
    + simpl. rewrite Nat.sub_0_r. reflexivity.
    + exists i. split; [|exact Hnone]. apply elem_of_seq. lia.
  - intros probs Hlen Hprobs Hsum.
    rewrite (scan_windows_found dbm tokens (S ngram) _ probs []).
    + simpl. apply combine_spec; [|exact Hsum].
      apply Forall_lookup. intros i p Hp. apply (Hprobs i p Hp).
    + apply Forall2_same_length_lookup_2.
      * rewrite length_seq. lia.
      * intros i j p Hj Hp. apply lookup_seq in Hj as [-> _]. apply (Hprobs i p Hp).
Qed.
End Backoff.

(** ** Exact arithmetic *)

Section Exact.
Variable parse : str → option Q.

Lemma exact_truthy (q : Q) : fbool (PyFloat := exact parse) q = true ↔ ¬ (q == 0)%Q.
Proof.
  simpl. rewrite negb_true_iff. split.
  - intros Hq Heq. apply Qeq_bool_iff in Heq. congruence.
  - intros Hq. destruct (Qeq_bool q 0) eqn:Heq; [|reflexivity].
    apply Qeq_bool_iff in Heq. contradiction.
Qed.

Lemma exact_pymax_floor (x b : Q) : (b <= pymax (H := exact parse) x b)%Q.
Proof.
  unfold pymax. simpl. destruct (Qle_bool b x) eqn:Hle; simpl.
  - apply Qle_bool_iff. exact Hle.
  - apply Qle_refl.
Qed.

Lemma exact_get_prob (dbm : gmap str str) (key : str) :
  table_nonneg parse dbm →
  ∃ q, get_prob (F := exact parse) dbm key = Ok q ∧ (0 <= q)%Q.
Proof.
  intros Hwf. unfold get_prob.
  destruct (dbm !! key) as [[|c v]|] eqn:Hkey;
    [exists 0%Q; split; [reflexivity|apply Qle_refl]|
    |exists 0%Q; split; [reflexivity|apply Qle_refl]].
  destruct (Hwf key (c :: v) Hkey) as (q & Hq & Hpos); [done|].
  exists q. simpl. rewrite Hq. split; [reflexivity|exact Hpos].
Qed.

Lemma exact_scan_windows (dbm : gmap str str) (tokens : list str) (ngram : nat)
    (indices : list nat) (acc : list Q) :
  table_nonneg parse dbm → Forall (λ p, 0 < p)%Q acc →
  ∃ found, scan_windows (F := exact parse) dbm tokens ngram indices acc = Ok found
    ∧ ∀ probs, found = Some probs →
        Forall (λ p, 0 < p)%Q probs ∧ length probs = (length acc + length indices)%nat.
Proof.
  intros Hwf. revert acc. induction indices as [|i indices IH]; intros acc Hacc.
  - exists (Some acc). split; [reflexivity|]. intros probs [= <-]. split; [exact Hacc|simpl; lia].
  - simpl scan_windows.
    destruct (exact_get_prob dbm (PyStr.join 32 (take ngram (drop i tokens))) Hwf)
      as (q & -> & Hq).
    simpl. destruct (negb (Qeq_bool q 0)) eqn:Ht.
    + destruct (IH (acc ++ [q])) as (found & Hrun & Hfound).
      { apply Forall_app. split; [exact Hacc|]. constructor; [|constructor].
        apply (exact_truthy q) in Ht. apply Qle_lteq in Hq as [Hlt|Heq]; [exact Hlt|].
        exfalso. apply Ht. symmetry. exact Heq. }
      exists found. split; [exact Hrun|]. intros probs Hp.
      destruct (Hfound probs Hp) as [Hall Hlen]. split; [exact Hall|].
      rewrite length_app in Hlen. simpl in Hlen |- *. lia.
    + exists None. split; [reflexivity|]. intros probs [=].
Qed.

Lemma exact_sum_inverses (probs : list Q) (acc : Q) :
  Forall (λ p, 0 < p)%Q probs →
  ∃ s, sum_inverses (F := exact parse) probs acc = Ok s
    ∧ (acc <= s)%Q ∧ (probs ≠ [] → acc < s)%Q.
Proof.
  intros Hall. revert acc. induction Hall as [|p probs Hp _ IH]; intros acc.
  - exists acc. split; [reflexivity|]. split; [apply Qle_refl|done].
  - simpl sum_inverses. unfold truediv.
    assert (fbool (PyFloat := exact parse) p = true) as ->.
    { apply exact_truthy. intros Heq. rewrite Heq in Hp. by apply Qlt_irrefl in Hp. }
    simpl. destruct (IH (acc + inject_Z 1 / p)%Q) as (s & -> & Hle & _).
    assert (0 < inject_Z 1 / p)%Q as Hinv.
    { unfold Qdiv. rewrite Qmult_1_l. apply Qinv_lt_0_compat. exact Hp. }
    exists s. split; [reflexivity|]. split; [lra|]. intros _. lra.
Qed.

Lemma exact_combine (tokens : list str) (ngram : nat) (probs : list Q) (pen : Q) :
  probs ≠ [] → Forall (λ p, 0 < p)%Q probs →
  ∃ r, combine (F := exact parse) tokens ngram probs pen = Ok r
    ∧ (base_prob (F := exact parse) <= r)%Q.
Proof.
  intros Hne Hall. unfold combine.
  destruct (exact_sum_inverses probs (inject_Z 0) Hall) as (s & Hs & _ & Hpos).
  change (float_of_int (PyFloat := exact parse) 0) with (inject_Z 0). rewrite Hs. simpl.
  unfold truediv.
  assert (fbool (PyFloat := exact parse) s = true) as ->.
  { apply exact_truthy. specialize (Hpos Hne). intros Heq. rewrite Heq in Hpos.
    by apply Qlt_irrefl in Hpos. }
  eexists. split; [reflexivity|]. apply exact_pymax_floor.
Qed.

Lemma exact_orders (dbm : gmap str str) (tokens : list str) (ngram : nat) (pen : Q) :
  table_nonneg parse dbm →
  ∃ r, orders (F := exact parse) dbm tokens ngram pen = Ok r
    ∧ (base_prob (F := exact parse) <= r)%Q.
Proof.
  intros Hwf. revert pen. induction ngram as [|ngram IH]; intros pen.
  - exists (base_prob (F := exact parse)). split; [reflexivity|apply Qle_refl].
  - simpl orders. destruct (length tokens <=? S ngram)%nat.
    + destruct (exact_get_prob dbm (PyStr.join 32 tokens) Hwf) as (q & -> & _). simpl.
      destruct (negb (Qeq_bool q 0)); [|apply IH].
      eexists. split; [reflexivity|]. apply exact_pymax_floor.
    + destruct (exact_scan_windows dbm tokens (S ngram)
                  (seq 0 (S (length tokens - S ngram))) [] Hwf) as (found & Hrun & Hfound);
        [constructor|].
      simpl in Hrun. simpl. rewrite Hrun. simpl.
      destruct found as [probs|]; [|apply IH].
      destruct (Hfound probs eq_refl) as [Hall Hlen].
      apply exact_combine; [|exact Hall].
      intros ->. simpl in Hlen. rewrite length_seq in Hlen. lia.
Qed.

Lemma exact_GetPhraseProb (dbm : gmap str str) (word : str) :
  table_nonneg parse dbm →
  ∃ prob, GetPhraseProb (F := exact parse) dbm word = Ok prob
    ∧ (base_prob (F := exact parse) <= prob)%Q.
Proof.
  intros Hwf. unfold GetPhraseProb.
  destruct (bool_decide _); [|by apply exact_orders].
  exists (base_prob (F := exact parse)). split; [reflexivity|apply Qle_refl].
Qed.
End Exact.


(** ** Ranking *)

Lemma insort_perm {F : PyFloat} {A} (x : A * float) (l : list (A * float)) :
  insort x l ≡ₚ x :: l.
Proof.
  induction l as [|y l IH]; simpl; [reflexivity|].
  destruct (flt x.2 y.2); [reflexivity|]. rewrite IH. apply Permutation_swap.
Qed.

Lemma sorted_by_snd_perm {F : PyFloat} {A} (l : list (A * float)) :
  sorted_by_snd l ≡ₚ l.
Proof.
  unfold sorted_by_snd. rewrite <- (app_nil_l l) at 2. generalize (@nil (A * float)).
  induction l as [|x l IH]; intros acc; simpl.
  - by rewrite app_nil_r.
  - rewrite IH, insort_perm. simpl. apply Permutation_middle.
Qed.

Section Ranking.
Context {R : PyRandom}.
Variable parse : str → option Q.





Lemma exact_scoring_ok (b : MakeIndexBatch) (dbm : gmap str str) :
  phrase_prob_dbm b = Some dbm → table_nonneg parse dbm → scoring_ok (F := exact parse) b.
Proof.
  intros Hdbm Hwf. unfold scoring_ok. rewrite Hdbm. intros word.
  destruct (exact_GetPhraseProb parse dbm word Hwf) as (prob & Hprob & _). by exists prob.
Qed.

Lemma exact_insort_equal_keys {A} (q : Q) (x : A) (l : list (A * Q)) :
  Forall (λ y, y.2 = q) l → insort (H := exact parse) (x, q) l = l ++ [(x, q)].
Proof.
  induction 1 as [|y l Hy _ IH]; simpl; [reflexivity|].
  rewrite Hy. assert (Qle_bool q q = true) as -> by (apply Qle_bool_iff, Qle_refl).
  simpl. by rewrite IH.
Qed.

Lemma exact_sorted_equal_keys {A} (q : Q) (xs : list A) (acc : list (A * Q)) :
  Forall (λ y, y.2 = q) acc →
  foldl (λ acc x, insort (H := exact parse) x acc) acc ((λ x, (x, q)) <$> xs)
  = acc ++ ((λ x, (x, q)) <$> xs).
Proof.
  revert acc. induction xs as [|x xs IH]; intros acc Hacc; simpl.
  - by rewrite app_nil_r.
  - rewrite (exact_insort_equal_keys q x acc Hacc), IH, <- app_assoc; [reflexivity|].
    apply Forall_app. split; [exact Hacc|by repeat constructor].
Qed.

Lemma exact_scoring_absent (phrases : list str) :
  mapM (λ phrase, GetPhraseProb (F := exact parse) ∅ phrase ≫= λ prob, mret (phrase, prob))
    phrases
  = Ok ((λ phrase, (phrase, base_prob (F := exact parse))) <$> phrases).
Proof.
  induction phrases as [|phrase phrases IH]; [reflexivity|].
  simpl. rewrite (GetPhraseProb_absent (F := exact parse)) by (intros ? ?; apply lookup_empty).
  simpl. simpl in IH. rewrite IH. reflexivity.
Qed.

(** An opened table without records ranks nothing: the sort is stable and
    every phrase scores [base_prob]. *)
Lemma exact_rank_empty_table (b : MakeIndexBatch) (phrases : list str) :
  phrase_prob_dbm b = Some ∅ → rank_phrases (F := exact parse) b phrases = Ok phrases.
Proof.
  intros Hdbm. unfold rank_phrases. rewrite Hdbm. destruct (_ >? _); [|reflexivity].
  rewrite exact_scoring_absent.
  change (Ok (sorted_by_snd (H := exact parse)
                ((λ phrase, (phrase, base_prob (F := exact parse))) <$> phrases)).*1
          = Ok phrases).
  f_equal.
  transitivity (((λ phrase, (phrase, base_prob (F := exact parse))) <$> phrases).*1).
  - f_equal.
    exact (exact_sorted_equal_keys (base_prob (F := exact parse)) phrases [] (Forall_nil_2 _)).
  - rewrite <- list_fmap_compose. apply list_fmap_id.
Qed.
End Ranking.

(** ** Determinism, and instances of the statements above *)

Section Determinism.
Context {U : Unicode} {C : Collaborators} {R : PyRandom} {F : PyFloat}.

End Determinism.

Lemma sample_table_nonneg : table_nonneg parse_decimal sample_table.
Proof.
  intros key v Hkv _. apply elem_of_list_to_map_2 in Hkv.
  repeat (apply elem_of_cons in Hkv as [[= -> ->]|Hkv]);
    [eexists; split; [vm_compute; reflexivity|discriminate].. |by apply elem_of_nil in Hkv].
Qed.

Lemma sample_table_parses : table_parses (F := exact parse_decimal) sample_table.
Proof.
  intros key v Hkv Hv. destruct (sample_table_nonneg key v Hkv Hv) as (q & Hq & _).
  exists q. exact Hq.
Qed.


Lemma backoff_order_witness :
  GetPhraseProb (F := exact parse_decimal) sample_table (lit "cat sat down")
  = orders (F := exact parse_decimal) sample_table (PyStr.split 32 (lit "cat sat down")) 1
      (penalty (F := exact parse_decimal) 2)
  ∧ GetPhraseProb (F := exact parse_decimal) sample_table (lit "the cat sat")
    = Ok (pymax (H := exact parse_decimal)
            (fmul (PyFloat := exact parse_decimal)
               (fmul (PyFloat := exact parse_decimal)
                  (harmonic_mean (F := exact parse_decimal) [(5 # 10)%Q; (25 # 100)%Q])
                  (fpow (PyFloat := exact parse_decimal) (3 # 10)%Q (3 - 2)))
               (penalty (F := exact parse_decimal) 1))
            (base_prob (F := exact parse_decimal))).
Proof.
  split.
  - apply (backoff_order (F := exact parse_decimal) sample_table (lit "cat sat down") 2 1).
    + simpl. lia.
    + reflexivity.
    + intros j Hj. assert (j = 3%nat) as -> by (simpl in Hj; lia).
      exists 0%Q. split; vm_compute; reflexivity.
    + apply sample_table_parses.
    + exists 1%nat. split; [simpl; lia|vm_compute; reflexivity].
  - apply (backoff_order (F := exact parse_decimal) sample_table (lit "the cat sat") 2 1).
    + simpl. lia.
    + reflexivity.
    + intros j Hj. assert (j = 3%nat) as -> by (simpl in Hj; lia).
      exists 0%Q. split; vm_compute; reflexivity.
    + reflexivity.
    + intros [|[|i]] p Hp; simpl in Hp; [injection Hp as <-..|discriminate];
        split; vm_compute; reflexivity.
    + vm_compute. reflexivity.
Defined.

Lemma line_ids_consecutive_witness :
  ∃ st', process_lines (U := ascii_text) (C := plain_tools) (F := exact parse_decimal)
           (mkState (capped_batch (Some sample_table)) 0 0 ∅) sample_stdin = Ok st'
    ∧ num_lines st'
      = Z.of_nat (length (accepted (U := ascii_text) (C := plain_tools) ∅ sample_stdin))
    ∧ (∀ i line, accepted (U := ascii_text) (C := plain_tools) ∅ sample_stdin !! i = Some line →
         output_dbm (self st') !! line_key (Z.of_nat i) = Some line)
    ∧ (∀ key, is_Some (output_dbm (self st') !! key) →
         ∃ i, (i < length (accepted (U := ascii_text) (C := plain_tools) ∅ sample_stdin))%nat
              ∧ key = line_key (Z.of_nat i)).
Proof.
  apply (line_ids_consecutive (U := ascii_text) (C := plain_tools) (F := exact parse_decimal)).
  - reflexivity.
  - apply index_wf_empty.
  - apply (exact_scoring_ok parse_decimal _ sample_table); [reflexivity|].
    apply sample_table_nonneg.
Defined.


Example ranked_sample :
  rank_phrases (F := exact parse_decimal) (capped_batch (Some sample_table)) scenario_phrases
  = Ok [lit "the"; lit "cat"; lit "sat"; lit "cat sat"; lit "the cat"].
Proof. vm_compute. reflexivity. Qed.

(** * Further properties of the parts *)

(** ** Splitting and joining *)

Lemma split_nonempty (sep : N) (s : str) : PyStr.split sep s ≠ [].
Proof. destruct s as [|c s]; simpl; [done|]. destruct (c =? sep)%N; [done|]. by destruct (PyStr.split sep s). Qed.

Lemma join_cons (sep : N) (w : str) (ws : list str) :
  ws ≠ [] → PyStr.join sep (w :: ws) = w ++ sep :: PyStr.join sep ws.
Proof. by destruct ws. Qed.

Lemma join_split (sep : N) (s : str) : PyStr.join sep (PyStr.split sep s) = s.
Proof.
  induction s as [|c s IH]; [reflexivity|]. simpl PyStr.split.
  destruct (N.eqb_spec c sep) as [->|Hne].
  - rewrite join_cons by apply split_nonempty. simpl. by rewrite IH.
  - pose proof (split_nonempty sep s) as Hs.
    destruct (PyStr.split sep s) as [|w ws]; [done|].
    destruct ws as [|w' ws]; simpl in *; by rewrite <- IH.
Qed.

Lemma split_no_sep (sep : N) (s : str) :
  Forall (λ w, sep ∉ w) (PyStr.split sep s).
Proof.
  induction s as [|c s IH]; simpl.
  - repeat constructor. apply not_elem_of_nil.
  - destruct (N.eqb_spec c sep) as [->|Hne].
    + constructor; [apply not_elem_of_nil|exact IH].
    + destruct (PyStr.split sep s) as [|w ws].
      { repeat constructor. intros [?|[]%elem_of_nil]%elem_of_cons. congruence. }
      inversion IH as [|? ? Hw Hws]; subst. constructor; [|exact Hws].
      intros [?|?]%elem_of_cons; [congruence|contradiction].
Qed.

Lemma split_app_sep (sep : N) (f r : str) :
  sep ∉ f → PyStr.split sep (f ++ sep :: r) = f :: PyStr.split sep r.
Proof.
  induction f as [|c f IH]; intros Hf; simpl.
  - by rewrite N.eqb_refl.
  - destruct (N.eqb_spec c sep) as [->|Hne]; [set_solver|].
    rewrite IH by set_solver. reflexivity.
Qed.

Lemma split_no_sep_id (sep : N) (f : str) : sep ∉ f → PyStr.split sep f = [f].
Proof.
  induction f as [|c f IH]; intros Hf; simpl; [reflexivity|].
  destruct (N.eqb_spec c sep) as [->|Hne]; [set_solver|].
  rewrite IH by set_solver. reflexivity.
Qed.

Lemma split_join (sep : N) (ws : list str) :
  ws ≠ [] → Forall (λ w, sep ∉ w) ws → PyStr.split sep (PyStr.join sep ws) = ws.
Proof.
  intros Hne Hall. induction Hall as [|w ws Hw Hws IH]; [done|].
  destruct ws as [|w' ws].
  - simpl. by apply split_no_sep_id.
  - rewrite join_cons by done. rewrite split_app_sep by exact Hw. f_equal. by apply IH.
Qed.

(** ** The normaliser *)

Section Normaliser.
Context {U : Unicode}.

Lemma sub_quote_gap_cons (a : N) (t : str) :
  sub_quote_gap (a :: t)
  = match t with
    | q :: b :: rest =>
        if joiner a && (q =? 34)%N && joiner b
        then a :: 34%N :: 32%N :: b :: sub_quote_gap rest
        else a :: sub_quote_gap t
    | _ => a :: sub_quote_gap t
    end.
Proof. by destruct t as [|q [|b rest]]. Qed.

Lemma sub_quote_gap_Forall (P : N → Prop) (s : str) :
  P 32%N → Forall P s → Forall P (sub_quote_gap s).
Proof.
  intros Hsp. remember (length s) as n eqn:Hn. revert s Hn.
  induction n as [n IH] using lt_wf_ind. intros s -> Hs.
  destruct s as [|a t]; [constructor|]. rewrite sub_quote_gap_cons.
  inversion Hs as [|? ? Ha Ht]; subst.
  assert (Forall P (a :: sub_quote_gap t)) as Hskip.
  { constructor; [exact Ha|]. apply (IH (length t)); [simpl; lia|reflexivity|exact Ht]. }
  destruct t as [|q [|b rest]]; [exact Hskip..|].
  destruct (joiner a && (q =? 34)%N && joiner b) eqn:Hm; [|exact Hskip].
  apply andb_prop in Hm as [Hm _]. apply andb_prop in Hm as [_ Hq34].
  apply N.eqb_eq in Hq34. subst q.
  inversion Ht as [|? ? Hq Hs2]; subst. inversion Hs2 as [|? ? Hb Hrest]; subst.
  repeat (constructor; [assumption|]).
  apply (IH (length rest)); [simpl; lia|reflexivity|assumption].
Qed.

(** X1.  The normalised sentence of a line holds none of the four curly
    quotation marks U+2018, U+2019, U+201C, U+201D, whatever the line and
    whatever the case mapping does outside ASCII. *)
Theorem normalised_text_has_no_curly_quote (line : str) :
  Forall (λ c, curly c = false) (mod_sentence_of line).
Proof.
  unfold mod_sentence_of. apply sub_quote_gap_Forall; [reflexivity|].
  unfold sub_quotes. apply Forall_fmap, Forall_true. intros c. simpl. fold (curly c).
  destruct (curly c) eqn:Hc; [reflexivity|exact Hc].
Qed.

Lemma first_field_only (field rest rest' : str) :
  9%N ∉ field →
  mod_sentence_of (field ++ 9%N :: rest) = mod_sentence_of (field ++ 9%N :: rest').
Proof.
  intros Hf. unfold mod_sentence_of. rewrite !split_app_sep by exact Hf. reflexivity.
Qed.

End Normaliser.

(** ** Case folding *)

Lemma isspace_bounds (c : N) : PyStr.isspace c = true → (c ≤ 32 ∨ 133 ≤ c)%N.
Proof.
  unfold PyStr.isspace. rewrite !orb_true_iff, !andb_true_iff, !N.leb_le, !N.eqb_eq. lia.
Qed.

Lemma isspace_ascii_lower (c : N) : PyStr.isspace (PyStr.ascii_lower c) = PyStr.isspace c.
Proof.
  unfold PyStr.ascii_lower.
  destruct (N.leb_spec 65 c), (N.leb_spec c 90); simpl; try reflexivity.
  destruct (PyStr.isspace c) eqn:Hc; [apply isspace_bounds in Hc; lia|].
  destruct (PyStr.isspace (c + 32)) eqn:Hc'; [apply isspace_bounds in Hc'; lia|reflexivity].
Qed.

Lemma tab_ascii_lower (c : N) : (PyStr.ascii_lower c =? 9)%N = (c =? 9)%N.
Proof.
  unfold PyStr.ascii_lower.
  destruct (N.leb_spec 65 c), (N.leb_spec c 90); simpl; try reflexivity.
  destruct (N.eqb_spec (c + 32) 9), (N.eqb_spec c 9); lia || reflexivity.
Qed.

Lemma lstrip_fmap (f : N → N) (s : str) :
  (∀ c, PyStr.isspace (f c) = PyStr.isspace c) →
  PyStr.lstrip (f <$> s) = f <$> PyStr.lstrip s.
Proof.
  intros Hf. induction s as [|c s IH]; [reflexivity|]. simpl. rewrite Hf.
  destruct (PyStr.isspace c); [exact IH|reflexivity].
Qed.

Lemma strip_fmap (f : N → N) (s : str) :
  (∀ c, PyStr.isspace (f c) = PyStr.isspace c) →
  PyStr.strip (f <$> s) = f <$> PyStr.strip s.
Proof.
  intros Hf. unfold PyStr.strip, PyStr.rstrip.
  rewrite (lstrip_fmap f s Hf), <- fmap_reverse, (lstrip_fmap f _ Hf), fmap_reverse.
  reflexivity.
Qed.

Lemma split_fmap (f : N → N) (sep : N) (s : str) :
  (∀ c, (f c =? sep)%N = (c =? sep)%N) →
  PyStr.split sep (f <$> s) = (λ w : str, f <$> w) <$> PyStr.split sep s.
Proof.
  intros Hf. induction s as [|c s IH]; [reflexivity|].
  rewrite fmap_cons. simpl PyStr.split. rewrite Hf, IH.
  destruct (c =? sep)%N; [reflexivity|]. by destruct (PyStr.split sep s).
Qed.

Lemma isascii_Forall (s : str) : PyStr.isascii s = true ↔ Forall (λ c, c < 128)%N s.
Proof.
  unfold PyStr.isascii. rewrite forallb_forall, Forall_forall.
  split; intros H c Hc; [apply N.ltb_lt|apply N.ltb_lt]; apply H;
    by apply list_elem_of_In.
Qed.

Lemma lstrip_Forall (P : N → Prop) (s : str) : Forall P s → Forall P (PyStr.lstrip s).
Proof.
  induction 1 as [|c s Hc Hs IH]; simpl; [constructor|].
  destruct (PyStr.isspace c); [exact IH|by constructor].
Qed.

Lemma strip_Forall (P : N → Prop) (s : str) : Forall P s → Forall P (PyStr.strip s).
Proof.
  intros Hs. unfold PyStr.strip, PyStr.rstrip.
  by apply Forall_reverse, lstrip_Forall, Forall_reverse, lstrip_Forall.
Qed.

Lemma isascii_strip (s : str) : PyStr.isascii s = true → PyStr.isascii (PyStr.strip s) = true.
Proof. rewrite !isascii_Forall. apply strip_Forall. Qed.

Lemma isascii_first_field (s : str) :
  PyStr.isascii s = true → PyStr.isascii (hd [] (PyStr.split 9 s)) = true.
Proof.
  rewrite !isascii_Forall. intros Hs.
  rewrite <- (join_split 9 s) in Hs.
  destruct (PyStr.split 9 s) as [|w [|w' ws]]; simpl in *; [constructor|exact Hs|].
  by apply Forall_app in Hs as [Hw _].
Qed.

Section CaseFolding.
Context {U : Unicode}.

Lemma lower_ascii (s : str) : PyStr.isascii s = true → lower s = PyStr.ascii_lower <$> s.
Proof. intros Hs. unfold lower. by rewrite Hs. Qed.

Lemma case_fold_sentence (line line' : str) :
  PyStr.isascii line = true → PyStr.isascii line' = true →
  PyStr.ascii_lower <$> line = PyStr.ascii_lower <$> line' →
  mod_sentence_of (PyStr.strip line) = mod_sentence_of (PyStr.strip line').
Proof.
  intros Hl Hl' Hcase. unfold mod_sentence_of. do 2 f_equal.
  rewrite !lower_ascii by (by apply isascii_strip, isascii_first_field, isascii_strip).
  rewrite <- !(strip_fmap PyStr.ascii_lower) by apply isspace_ascii_lower.
  f_equal.
  transitivity (hd [] ((λ w : str, PyStr.ascii_lower <$> w) <$> PyStr.split 9 (PyStr.strip line))).
  { by destruct (PyStr.split 9 (PyStr.strip line)). }
  transitivity (hd [] ((λ w : str, PyStr.ascii_lower <$> w) <$> PyStr.split 9 (PyStr.strip line')));
    [|by destruct (PyStr.split 9 (PyStr.strip line'))].
  f_equal.
  rewrite <- !(split_fmap PyStr.ascii_lower) by apply tab_ascii_lower.
  rewrite <- !(strip_fmap PyStr.ascii_lower) by apply isspace_ascii_lower.
  by rewrite Hcase.
Qed.
End CaseFolding.

(** ** Phrase extraction *)

Section WordShape.
Context {U : Unicode} {C : Collaborators}.

Lemma drop_symbols_spec (word : str) :
  ∃ pre, word = pre ++ drop_symbols word
    ∧ Forall (λ c, wordchar c = false) pre
    ∧ match drop_symbols word with c :: _ => wordchar c = true | [] => True end.
Proof.
  induction word as [|c word (pre & Hw & Hpre & Hhd)]; simpl.
  - by exists [].
  - destruct (wordchar c) eqn:Hc.
    + exists []. by rewrite Hc.
    + exists (c :: pre). split; [simpl; congruence|]. split; [by constructor|exact Hhd].
Qed.

Lemma head_match_spec (word : str) :
  ∃ pre, word = pre ++ (head_match word).2
    ∧ Forall (λ c, wordchar c = false) pre
    ∧ ((head_match word).1 = true ↔ pre ≠ [])
    ∧ match (head_match word).2 with c :: _ => wordchar c = true | [] => True end.
Proof.
  unfold head_match. destruct word as [|c word]; [by exists []|].
  destruct (wordchar c) eqn:Hc.
  - exists []. simpl. rewrite Hc. by intuition.
  - destruct (drop_symbols_spec (c :: word)) as (pre & Hw & Hpre & Hhd).
    exists pre. simpl. split; [exact Hw|]. split; [exact Hpre|]. split; [|exact Hhd].
    split; [|done]. intros _ ->. simpl in Hw, Hhd. rewrite Hc in Hw, Hhd.
    destruct (drop_symbols word); simplify_eq. congruence.
Qed.

Lemma tail_match_spec (word : str) :
  ∃ post, word = (tail_match word).2 ++ post
    ∧ Forall (λ c, wordchar c = false) post
    ∧ ((tail_match word).1 = true ↔ post ≠ [])
    ∧ match last (tail_match word).2 with Some c => wordchar c = true | None => True end.
Proof.
  unfold tail_match.
  destruct (head_match_spec (reverse word)) as (pre & Hw & Hpre & Hflag & Hhd).
  destruct (head_match (reverse word)) as [found rest]. simpl in *.
  exists (reverse pre). split; [|split; [|split]].
  - rewrite <- reverse_app, <- Hw. by rewrite reverse_involutive.
  - by apply Forall_reverse.
  - rewrite Hflag. split; intros Hne Hnil; apply Hne.
    + by rewrite <- (reverse_involutive pre), Hnil.
    + by rewrite Hnil.
  - rewrite last_reverse. by destruct rest.
Qed.

Lemma core_shape (word : str) :
  ∃ pre post, word = pre ++ core word ++ post
    ∧ Forall (λ c, wordchar c = false) pre
    ∧ Forall (λ c, wordchar c = false) post
    ∧ (head_symbol word = true ↔ pre ≠ [])
    ∧ (tail_symbol word = true ↔ post ≠ [])
    ∧ (core word ≠ [] →
       (∃ c, head (core word) = Some c ∧ wordchar c = true)
       ∧ (∃ c, last (core word) = Some c ∧ wordchar c = true)).
Proof.
  unfold core, head_symbol, tail_symbol.
  destruct (head_match_spec word) as (pre & Hw & Hpre & Hhs & Hhd).
  destruct (tail_match_spec (head_match word).2) as (post & Hw1 & Hpost & Hts & Hlast).
  exists pre, post. split; [by rewrite <- Hw1|]. repeat (split; [assumption|]).
  intros Hne. split.
  - rewrite Hw1 in Hhd. destruct (tail_match (head_match word).2).2 as [|c w2]; [done|].
    by exists c.
  - destruct (last (tail_match (head_match word).2).2) as [c|] eqn:Hl; [by exists c|].
    by apply last_None in Hl.
Qed.
(** X4.  A word is its core between a run of symbols on each side (a symbol
    is a character outside the class of hyphen, Latin letters, digits and
    underscore): the head-symbol flag says that the left run is not empty, the
    tail-symbol flag that the right run is not empty, and a core that is not
    empty starts and ends with a character of the class. *)
Theorem word_core_shape (word : str) :
  ∃ pre post, word = pre ++ core word ++ post
    ∧ Forall (λ c, wordchar c = false) pre
    ∧ Forall (λ c, wordchar c = false) post
    ∧ (head_symbol word = true ↔ pre ≠ [])
    ∧ (tail_symbol word = true ↔ post ≠ [])
    ∧ (core word ≠ [] →
       (∃ c, head (core word) = Some c ∧ wordchar c = true)
       ∧ (∃ c, last (core word) = Some c ∧ wordchar c = true)).
Proof. apply core_shape. Qed.
End WordShape.

Section WindowLoop.
Context {U : Unicode} {C : Collaborators}.

Lemma window_cons (kw : gset str) (word : str) (rest : list str) (first : bool)
    (tokens phrases : list str) (uniq : gset str) (nw : Z) :
  window kw (word :: rest) first tokens (phrases, uniq, nw)
  = if negb (has_alnum (core word)) then (phrases, uniq, nw)
    else if head_symbol word && negb first then (phrases, uniq, nw + 1)
    else
      let acc := record_phrase kw (PyStr.join 32 (tokens ++ [core word]))
                   (phrases, uniq, nw + 1) in
      if tail_symbol word then acc
      else window kw rest false (tokens ++ [core word]) acc.
Proof.
  unfold core, head_symbol, tail_symbol, record_phrase. simpl.
  destruct (head_match word) as [hs w1]. simpl.
  destruct (tail_match w1) as [ts w2]. simpl. reflexivity.
Qed.

Lemma record_phrase_spec (kw : gset str) (phrase : str) (acc : list str * gset str * Z) :
  acc_ok acc →
  acc_ok (record_phrase kw phrase acc)
  ∧ (record_phrase kw phrase acc).2 = acc.2
  ∧ acc.1.1 `prefix_of` (record_phrase kw phrase acc).1.1
  ∧ ∀ p, p ∈ (record_phrase kw phrase acc).1.1
         ↔ p ∈ acc.1.1 ∨ (p = phrase ∧ is_good kw phrase = true).
Proof.
  destruct acc as [[phrases uniq] nw]. intros [Hnd Huniq]. unfold record_phrase. simpl in *.
  destruct (is_good kw phrase) eqn:Hgood; simpl.
  - destruct (bool_decide_reflect (phrase ∈ uniq)) as [Hin|Hnew]; simpl.
    + split; [done|]. split; [done|]. split; [done|].
      intros p. split; [by left|]. intros [?|[-> _]]; [done|]. by apply Huniq.
    + split; [|split; [done|split; [by apply prefix_app_r|]]].
      * split.
        -- apply NoDup_app. split; [done|]. split; [|apply NoDup_singleton].
           intros p Hp ->%list_elem_of_singleton. by apply Hnew, Huniq.
        -- intros p. simpl. rewrite elem_of_union, elem_of_singleton, elem_of_app,
             list_elem_of_singleton, Huniq. tauto.
      * intros p. simpl. rewrite elem_of_app, list_elem_of_singleton. tauto.
  - split; [done|]. split; [done|]. split; [done|].
    intros p. split; [by left|]. intros [?|[_ ?]]; done.
Qed.

Lemma window_spec (kw : gset str) (rest : list str) (first : bool) (tokens : list str)
    (acc : list str * gset str * Z) :
  acc_ok acc →
  acc_ok (window kw rest first tokens acc)
  ∧ acc.1.1 `prefix_of` (window kw rest first tokens acc).1.1
  ∧ acc.2 ≤ (window kw rest first tokens acc).2 ≤ acc.2 + Z.of_nat (length rest)
  ∧ ∀ p, p ∈ (window kw rest first tokens acc).1.1
         ↔ p ∈ acc.1.1
           ∨ ∃ j, (1 ≤ j ≤ length rest)%nat
                ∧ unbroken_from first (take j rest) = true
                ∧ p = PyStr.join 32 (tokens ++ (core <$> take j rest))
                ∧ is_good kw p = true.
Proof.
  revert first tokens acc. induction rest as [|word rest IH]; intros first tokens acc Hok.
  - simpl. split; [done|]. split; [done|]. split; [lia|].
    intros p. split; [by left|]. intros [?|(j & Hj & _)]; [done|simpl in Hj; lia].
  - destruct acc as [[phrases uniq] nw]. rewrite window_cons. simpl length.
    destruct (has_alnum (core word)) eqn:Halnum; simpl negb; cbv iota.
    2:{ split; [done|]. split; [done|]. split; [simpl; lia|].
        intros p. split; [by left|]. intros [?|(j & Hj & Hadm & _)]; [done|].
        destruct j as [|j]; [lia|]. simpl in Hadm. rewrite Halnum in Hadm. done. }
    destruct (head_symbol word && negb first) eqn:Hhead.
    { split; [done|]. split; [done|]. split; [simpl; lia|].
      intros p. split; [by left|]. intros [?|(j & Hj & Hadm & _)]; [done|].
      destruct j as [|j]; [lia|]. simpl in Hadm. rewrite Halnum in Hadm.
      apply andb_prop in Hhead as [Hhs Hfirst%negb_true_iff].
      rewrite Hhs, Hfirst in Hadm. done. }
    assert (first || negb (head_symbol word) = true) as Hhead'.
    { destruct first, (head_symbol word); done. }
    set (phrase := PyStr.join 32 (tokens ++ [core word])).
    destruct (record_phrase_spec kw phrase (phrases, uniq, nw + 1))
      as (Hok1 & Hnw1 & Hpre1 & Hin1); [exact Hok|].
    cbv zeta. set (acc1 := record_phrase kw phrase (phrases, uniq, nw + 1)) in *.
    cbn [fst snd] in Hnw1, Hpre1, Hin1 |- *.
    assert (∀ p, p = phrase ∧ is_good kw phrase = true
                 ↔ ∃ j, j = 1%nat ∧ unbroken_from first (take j (word :: rest)) = true
                      ∧ p = PyStr.join 32 (tokens ++ (core <$> take j (word :: rest)))
                      ∧ is_good kw p = true) as Hone.
    { intros p. split.
      - intros [-> Hgood]. exists 1%nat. split; [done|]. simpl. rewrite ?take_0.
        rewrite Halnum, Hhead'. simpl. done.
      - intros (j & -> & _ & -> & Hgood). simpl in Hgood |- *. rewrite ?take_0 in Hgood |- *.
        done. }
    destruct (tail_symbol word) eqn:Htail.
    + split; [exact Hok1|]. split; [exact Hpre1|]. split; [lia|].
      intros p. rewrite Hin1, Hone. split.
      * intros [?|(j & -> & ?)]; [by left|]. right. exists 1%nat. split; [lia|done].
      * intros [?|(j & Hj & Hadm & Hp & Hgood)]; [by left|]. right.
        assert (j = 1%nat) as ->; [|by exists 1%nat].
        destruct j as [|[|j]]; [lia|done|].
        exfalso. simpl in Hadm. rewrite Htail in Hadm.
        destruct rest as [|w rest]; [simpl in Hj; lia|]. simpl in Hadm.
        rewrite !andb_false_r in Hadm. simpl in Hadm. by rewrite ?andb_false_r in Hadm.
    + destruct (IH false (tokens ++ [core word]) acc1 Hok1) as (Hok2 & Hpre2 & Hnw2 & Hin2).
      split; [exact Hok2|]. split; [by etransitivity|]. split; [lia|].
      intros p. rewrite Hin2, Hin1, Hone. split.
      * intros [[?|(j & -> & ?)]|(j & Hj & Hadm & -> & Hgood)]; [by left| |].
        -- right. exists 1%nat. split; [lia|done].
        -- right. exists (S j). split; [lia|]. simpl. rewrite Halnum, Hhead', Htail, Hadm.
           simpl. rewrite orb_true_r. split; [done|]. rewrite <- app_assoc in Hgood |- *. done.
      * intros [?|(j & Hj & Hadm & -> & Hgood)]; [by left; left|].
        destruct j as [|[|j]]; [lia| |].
        -- left. right. exists 1%nat. done.
        -- right. exists (S j). split; [lia|]. simpl in Hadm, Hgood |- *.
           rewrite <- app_assoc. simpl. split; [|done].
           apply andb_prop in Hadm as [_ Hadm]. exact Hadm.
Qed.
End WindowLoop.

Section ExtractSpec.
Context {U : Unicode} {C : Collaborators}.

Lemma extract_spec (kw : gset str) (mn : Z) (words : list str)
    (acc : list str * gset str * Z) :
  acc_ok acc →
  acc_ok (extract kw mn words acc)
  ∧ acc.1.1 `prefix_of` (extract kw mn words acc).1.1
  ∧ ∀ p, p ∈ (extract kw mn words acc).1.1 ↔ p ∈ acc.1.1 ∨ candidate kw mn words p.
Proof.
  revert acc. induction words as [|w words IH]; intros acc Hok.
  - simpl. split; [done|]. split; [done|]. intros p. split; [by left|].
    intros [?|(i & j & Hj & Hij & _)]; [done|]. simpl in Hij. lia.
  - simpl extract.
    destruct (window_spec kw (take (Z.to_nat mn) (w :: words)) true [] acc Hok)
      as (Hok1 & Hpre1 & _ & Hin1).
    destruct (IH _ Hok1) as (Hok2 & Hpre2 & Hin2).
    split; [exact Hok2|]. split; [by etransitivity|].
    intros p. rewrite Hin2, Hin1. split.
    + intros [[?|(j & Hj & Hadm & -> & Hgood)]|(i & j & Hj & Hij & Hadm & -> & Hgood)];
        [by left| |].
      * right. exists 0%nat, j. rewrite length_take in Hj. unfold window_at.
        rewrite take_take, (Nat.min_l j) in Hadm, Hgood |- * by lia.
        rewrite drop_0. split; [lia|]. split; [lia|]. done.
      * right. exists (S i), j. unfold window_at in *.
        split; [lia|]. split; [simpl; lia|]. done.
    + intros [?|(i & j & Hj & Hij & Hadm & -> & Hgood)]; [by left; left|].
      unfold window_at in *. destruct i as [|i].
      * left. right. exists j. rewrite length_take. rewrite drop_0 in Hadm, Hgood |- *.
        rewrite take_take, (Nat.min_l j) by lia. split; [simpl in Hij |- *; lia|]. done.
      * right. exists i, j. unfold window_at.
        split; [lia|]. split; [simpl in Hij; lia|]. done.
Qed.

Lemma extract_fresh (kw : gset str) (mn : Z) (words : list str) (nw : Z) :
  NoDup (extract kw mn words ([], ∅, nw)).1.1
  ∧ ∀ p, p ∈ (extract kw mn words ([], ∅, nw)).1.1 ↔ candidate kw mn words p.
Proof.
  destruct (extract_spec kw mn words ([], ∅, nw)) as ([Hnd _] & _ & Hin).
  { split; [constructor|]. intros p. simpl. set_solver. }
  split; [exact Hnd|]. intros p. rewrite Hin. simpl. split; [|by right].
  intros [Hnil|?]; [by apply elem_of_nil in Hnil|done].
Qed.

(** X5.  The phrases extracted from the words of a sentence have no
    repetition and are exactly its candidates: for a start word and a length
    of at most [max_ngram], the cores of the words of that window joined by
    single spaces, provided that every core has a letter or digit, that no
    word but the first has a head symbol and no word but the last a tail
    symbol, and that the keyword filter lets the phrase through. *)
Theorem extract_candidates (kw : gset str) (mn : Z) (words : list str) (nw : Z) :
  NoDup (extract kw mn words ([], ∅, nw)).1.1
  ∧ ∀ p, p ∈ (extract kw mn words ([], ∅, nw)).1.1 ↔ candidate kw mn words p.
Proof. apply extract_fresh. Qed.

(** X6.  With [max_ngram] zero or negative the extraction visits no word:
    no phrase is added and no word is counted. *)
Theorem extract_nothing (kw : gset str) (mn : Z) (words : list str)
    (acc : list str * gset str * Z) :
  mn ≤ 0 → extract kw mn words acc = acc.
Proof.
  intros Hmn. induction words as [|w words IH]; [reflexivity|].
  simpl. replace (Z.to_nat mn) with 0%nat by lia. rewrite take_0. exact IH.
Qed.

Lemma join_head (w : str) (ws : list str) (c : N) :
  head w = Some c → head (PyStr.join 32 (w :: ws)) = Some c.
Proof. destruct w as [|c' w]; [done|]. intros [= ->]. by destruct ws. Qed.

Lemma has_alnum_nonempty (w : str) : has_alnum w = true → w ≠ [].
Proof. by destruct w. Qed.

Lemma candidate_head (kw : gset str) (mn : Z) (words : list str) (p : str) :
  candidate kw mn words p → ∃ c, head p = Some c ∧ wordchar c = true.
Proof.
  intros (i & j & Hj & Hij & Hadm & -> & _). unfold unbroken in Hadm.
  destruct (window_at words i j) as [|w ws] eqn:Hw.
  { apply (f_equal length) in Hw. unfold window_at in Hw.
    rewrite length_take, length_drop in Hw. simpl in Hw. lia. }
  simpl in Hadm. apply andb_prop in Hadm as [Hadm _]. apply andb_prop in Hadm as [Hadm _].
  apply andb_prop in Hadm as [Halnum _].
  destruct (core_shape w) as (_ & _ & _ & _ & _ & _ & _ & Hshape).
  destruct (Hshape (has_alnum_nonempty _ Halnum)) as [(c & Hc & Hwc) _].
  exists c. split; [|exact Hwc]. rewrite fmap_cons. by apply join_head.
Qed.
End ExtractSpec.

(** ** The reservoir, for any capacity *)

Section ReservoirShape.
Context {R : PyRandom}.

Lemma update_index_shape (ms : Z) (calls : list (Z * str)) (line_id : Z) (p : str)
    (idx : gmap str (list Z)) (g : rng) :
  index_shape ms calls idx →
  ∃ idx' g', update ms line_id p (idx, g) = Ok (idx', g') ∧
             index_shape ms (calls ++ [(line_id, p)]) idx'.
Proof.
  intros Hok. pose proof (Hok p) as Hp.
  assert (∀ idx' : gmap str (list Z),
            (∀ q, q ≠ p → idx' !! q = idx !! q) →
            record_shape ms (occurrences p calls ++ [line_id]) (default [] (idx' !! p)) →
            is_Some (idx' !! p) →
            index_shape ms (calls ++ [(line_id, p)]) idx') as Hstep.
  { intros idx' Hother Hrec [r Hr] q. rewrite occurrences_snoc.
    destruct (decide (p = q)) as [<-|Hpq].
    - rewrite Hr in Hrec |- *. exact Hrec.
    - rewrite Hother by done. rewrite app_nil_r. apply Hok. }
  destruct (idx !! p) as [record|] eqn:Hrec.
  - destruct Hp as (Hne & samples & -> & Hsne & Hsub & Hone & Hall & Hlen & Hlast).
    set (occ := occurrences p calls) in *.
    assert (0 < length occ)%nat as Hocc by (destruct occ; [done|simpl; lia]).
    assert (0 < length samples)%nat as Hsam by (destruct samples; [done|simpl; lia]).
    destruct (Z.lt_ge_cases (Z.of_nat (length samples)) ms) as [Hlt|Hge].
    + eexists _, _. split; [apply (update_append _ _ _ _ _ _ _ Hrec Hlt)|].
      apply Hstep.
      * intros q Hq. by rewrite lookup_insert_ne.
      * rewrite lookup_insert_eq. simpl. split; [by destruct occ|].
        exists (samples ++ [line_id]). rewrite !length_app. simpl.
        split; [f_equal; lia|]. split; [by destruct samples|].
        split; [|split; [lia|split; [|split]]].
        -- intros i [Hi|Hi]%elem_of_app; apply elem_of_app; [left; by apply Hsub|by right].
        -- intros Hc. rewrite Hall by lia. reflexivity.
        -- intros Hms. specialize (Hlen Hms). lia.
        -- intros Hms. assert (length samples = length occ) as Heq by (specialize (Hlen ltac:(lia)); lia).
           assert (Z.to_nat (ms - 1) = length occ) as -> by lia.
           rewrite lookup_app_r by lia. rewrite lookup_app_r by lia.
           rewrite Heq. reflexivity.
      * rewrite lookup_insert_eq. by eexists.
    + pose proof (randint_range g 1 (Z.of_nat (length occ) + 1) ltac:(lia)) as Hdraw.
      eexists _, _. split.
      { apply (update_full _ _ _ _ _ _ _ Hrec Hge). lia. }
      apply Hstep.
      * intros q Hq. by rewrite lookup_insert_ne.
      * rewrite lookup_insert_eq. simpl. split; [by destruct occ|].
        set (r := (randint g 1 (Z.of_nat (length occ) + 1)).1) in *.
        eexists. rewrite length_app. simpl. split; [f_equal; lia|].
        destruct (Z.ltb_spec r ms) as [Hr|Hr].
        -- assert (Z.to_nat (r - 1) < length samples)%nat as Hin by lia.
           split; [intros Hnil; apply (f_equal length) in Hnil;
                   rewrite length_insert in Hnil; simpl in Hnil; lia|].
           split; [|split; [lia|split; [|split]]].
           ++ intros i Hi. apply elem_of_app.
              apply list_elem_of_lookup in Hi as [k Hk].
              destruct (decide (k = Z.to_nat (r - 1))) as [->|Hne'].
              ** rewrite list_lookup_insert_eq in Hk by done. right.
                 injection Hk as <-. by apply list_elem_of_singleton.
              ** rewrite list_lookup_insert_ne in Hk by done. left.
                 apply Hsub. by eapply list_elem_of_lookup_2.
           ++ intros Hc. specialize (Hlen ltac:(lia)). lia.
           ++ intros Hms. rewrite length_insert. specialize (Hlen Hms). lia.
           ++ intros Hms. rewrite list_lookup_insert_ne by lia.
              specialize (Hlen ltac:(lia)).
              rewrite lookup_app_l by lia. apply Hlast. lia.
        -- split; [exact Hsne|]. split; [|split; [|split; [|split]]].
           ++ intros i Hi. apply elem_of_app. left. by apply Hsub.
           ++ intros Hms. rewrite Hone by exact Hms. by destruct occ.
           ++ intros Hc. destruct (Z.le_gt_cases 1 ms) as [Hms|Hms]; [|lia].
              specialize (Hlen Hms). lia.
           ++ intros Hms. specialize (Hlen Hms). lia.
           ++ intros Hms. specialize (Hlen ltac:(lia)).
              rewrite lookup_app_l by lia. apply Hlast. lia.
      * rewrite lookup_insert_eq. by eexists.
  - eexists _, _. split; [apply (update_fresh _ _ _ _ _ Hrec)|].
    apply Hstep.
    + intros q Hq. by rewrite lookup_insert_ne.
    + rewrite lookup_insert_eq, Hp. rewrite app_nil_l. cbn [default].
      split; [done|]. exists [line_id].
      split; [done|]. split; [done|]. split; [done|].
      split; [done|]. split; [done|]. split; [intros Hms; cbn [length]; lia|]. intros Hms.
      by replace (Z.to_nat (ms - 1)) with 0%nat by (cbn [length] in Hms; lia).
    + rewrite lookup_insert_eq. by eexists.
Qed.

Lemma updates_index_shape (ms : Z) (calls : list (Z * str)) (g : rng) :
  ∃ idx g', updates ms calls (∅, g) = Ok (idx, g') ∧ index_shape ms calls idx.
Proof.
  induction calls as [|[line_id p] calls IH] using rev_ind.
  - exists ∅, g. split; [reflexivity|]. intros q. rewrite lookup_empty. reflexivity.
  - destruct IH as (idx & g1 & Hrun & Hok).
    destruct (update_index_shape ms calls line_id p idx g1 Hok) as (idx' & g' & Hupd & Hok').
    exists idx', g'. split; [|exact Hok'].
    rewrite updates_snoc, Hrun. exact Hupd.
Qed.

(** X14.  For any capacity, positive or not, and any sequence of [Update]
    calls from the empty index: every call succeeds; a phrase has a record
    exactly when it was indexed; the count of the record is the number of
    times it was; the record has at least one sample; and every sample is the
    line id of one of the calls for that phrase. *)
Theorem samples_are_occurrences (ms : Z) (calls : list (Z * str)) (g : rng) :
  ∃ word_index g', updates ms calls (∅, g) = Ok (word_index, g') ∧
    ∀ phrase,
      (word_index !! phrase = None ↔ occurrences phrase calls = []) ∧
      ∀ record, word_index !! phrase = Some record →
        count_of record = Z.of_nat (length (occurrences phrase calls)) ∧
        samples_of record ≠ [] ∧
        ∀ line_id, line_id ∈ samples_of record → line_id ∈ occurrences phrase calls.
Proof.
  destruct (updates_index_shape ms calls g) as (idx & g' & Hrun & Hok).
  exists idx, g'. split; [exact Hrun|]. intros phrase. pose proof (Hok phrase) as Hp.
  destruct (idx !! phrase) as [record|].
  - destruct Hp as (Hne & samples & -> & Hsne & Hsub & _). split; [done|].
    intros ? [= <-]. done.
  - split; [done|]. intros ? [=].
Qed.

(** X15.  For a capacity of at least one: once a phrase was indexed
    [max_samples] times or more, its record holds exactly [max_samples]
    samples, and the last of them is still the [max_samples]-th occurrence of
    the phrase: the replacement of line 205-206 never reaches the last slot. *)
Theorem full_reservoir_last_slot (ms : Z) (calls : list (Z * str)) (g : rng) :
  1 ≤ ms →
  ∃ word_index g', updates ms calls (∅, g) = Ok (word_index, g') ∧
    ∀ phrase record, word_index !! phrase = Some record →
      ms ≤ count_of record →
      Z.of_nat (length (samples_of record)) = ms ∧
      samples_of record !! Z.to_nat (ms - 1)
      = occurrences phrase calls !! Z.to_nat (ms - 1).
Proof.
  intros Hms. destruct (updates_index_shape ms calls g) as (idx & g' & Hrun & Hok).
  exists idx, g'. split; [exact Hrun|]. intros phrase record Hrec.
  pose proof (Hok phrase) as Hp. rewrite Hrec in Hp.
  destruct Hp as (_ & samples & -> & _ & _ & _ & _ & Hlen & Hlast). simpl.
  intros Hfull. split; [specialize (Hlen Hms); lia|]. apply Hlast. lia.
Qed.

(** X16.  With a capacity of one, zero or less, the samples of a record are
    the first occurrence of its phrase alone, however often the phrase is
    indexed afterwards. *)
Theorem capacity_below_two_keeps_first (ms : Z) (calls : list (Z * str)) (g : rng) :
  ms ≤ 1 →
  ∃ word_index g', updates ms calls (∅, g) = Ok (word_index, g') ∧
    ∀ phrase record, word_index !! phrase = Some record →
      samples_of record = take 1 (occurrences phrase calls).
Proof.
  intros Hms. destruct (updates_index_shape ms calls g) as (idx & g' & Hrun & Hok).
  exists idx, g'. split; [exact Hrun|]. intros phrase record Hrec.
  pose proof (Hok phrase) as Hp. rewrite Hrec in Hp.
  destruct Hp as (_ & samples & -> & _ & _ & Hone & _). simpl. by apply Hone.
Qed.
End ReservoirShape.

(** ** More on the phrase-probability model *)

Section BackoffMore.
Context {F : PyFloat}.

Lemma GetPhraseProb_orders (dbm : gmap str str) (word : str) :
  GetPhraseProb dbm word
  = orders dbm (PyStr.split 32 word) (Nat.min 3 (length (PyStr.split 32 word))) (float_lit 1).
Proof.
  unfold GetPhraseProb. rewrite bool_decide_eq_false_2; [reflexivity|apply split_nonempty].
Qed.

Lemma GetPhraseProb_reach (dbm : gmap str str) (word : str) (ngram k : nat) :
  let tokens := PyStr.split 32 word in
  (ngram + k = Nat.min 3 (length tokens))%nat →
  (∀ j, (ngram < j ≤ Nat.min 3 (length tokens))%nat → order_missed dbm tokens j) →
  GetPhraseProb dbm word = orders dbm tokens ngram (penalty k).
Proof.
  intros tokens Hk Hmiss. rewrite GetPhraseProb_orders. fold tokens. rewrite <- Hk.
  apply orders_skip. intros j Hj. apply Hmiss. lia.
Qed.

Lemma first_lookup (dbm : gmap str str) (word : str) :
  let tokens := PyStr.split 32 word in
  let first := PyStr.join 32 (take 3 tokens) in
  GetPhraseProb dbm word
  = get_prob dbm first ≫= λ prob,
      if (length tokens <=? 3)%nat
      then if fbool prob then Ok (pymax prob base_prob)
           else orders dbm tokens (Nat.min 3 (length tokens) - 1) (fmul (float_lit 1) (float_lit (1 # 10)))
      else if fbool prob
           then scan_windows dbm tokens 3 (seq 1 (length tokens - 3)) [prob] ≫= λ found,
                  match found with
                  | Some probs => combine tokens 3 probs (float_lit 1)
                  | None => orders dbm tokens 2 (fmul (float_lit 1) (float_lit (1 # 10)))
                  end
           else orders dbm tokens 2 (fmul (float_lit 1) (float_lit (1 # 10))).
Proof.
  intros tokens first. rewrite GetPhraseProb_orders. fold tokens. subst first.
  pose proof (split_nonempty 32 word) as Hne. fold tokens in Hne.
  assert (0 < length tokens)%nat as Hpos by (destruct tokens; [done|simpl; lia]).
  destruct (Nat.leb_spec (length tokens) 3) as [Hle|Hgt].
  - rewrite Nat.min_r by lia. rewrite take_ge by lia.
    destruct (length tokens) as [|n] eqn:Hn; [lia|]. rewrite orders_S, Hn.
    rewrite Nat.leb_refl. replace (S n - 1)%nat with n by lia. reflexivity.
  - rewrite Nat.min_l by lia. rewrite orders_S.
    destruct (Nat.leb_spec (length tokens) 3) as [|_]; [lia|].
    cbn [seq scan_windows]. rewrite drop_0.
    destruct (get_prob dbm (PyStr.join 32 (take 3 tokens))) as [prob|e]; [|reflexivity].
    simpl. destruct (fbool prob); reflexivity.
Qed.

(** X10.  A phrase of at most three tokens that is itself a key of the
    table, with a probability that is not zero, is estimated by that
    probability (or by [base_prob] when that is greater), without any
    backoff. *)
Theorem whole_phrase_hit (dbm : gmap str str) (word : str) (p : float) :
  (length (PyStr.split 32 word) ≤ 3)%nat →
  get_prob dbm word = Ok p → fbool p = true →
  GetPhraseProb dbm word = Ok (pymax p base_prob).
Proof.
  intros Hlen Hp Ht. rewrite first_lookup. rewrite take_ge by lia.
  rewrite join_split, Hp. simpl.
  destruct (Nat.leb_spec (length (PyStr.split 32 word)) 3) as [_|]; [|lia].
  rewrite Ht. reflexivity.
Qed.

(** X11.  The first key looked up for a phrase is its first three tokens
    joined by spaces (the whole phrase when it has at most three).  If the
    table holds, under that key, a value that is not empty and does not read
    as a number, [GetPhraseProb] raises [ValueError]. *)
Theorem malformed_value_raises (dbm : gmap str str) (word v : str) :
  dbm !! PyStr.join 32 (take 3 (PyStr.split 32 word)) = Some v →
  v ≠ [] → float_of_str v = None →
  GetPhraseProb dbm word = Raise ValueError.
Proof.
  intros Hkey Hv Hbad. rewrite first_lookup. unfold get_prob at 1. rewrite Hkey.
  destruct v as [|c v]; [done|]. rewrite Hbad. reflexivity.
Qed.

(** X12.  At an order [ngram] below the number of tokens, reached after the
    higher orders were missed: if every window is found with a probability
    that is not zero, but the inverses of the probabilities sum to zero,
    [GetPhraseProb] raises [ZeroDivisionError] (line 126). *)
Theorem zero_inverse_sum_raises (dbm : gmap str str) (word : str) (ngram k : nat)
    (probs : list float) :
  let tokens := PyStr.split 32 word in
  let n := length tokens in
  (1 ≤ ngram < n)%nat → (ngram + k = Nat.min 3 n)%nat →
  (∀ j, (ngram < j ≤ Nat.min 3 n)%nat → order_missed dbm tokens j) →
  length probs = (n - ngram + 1)%nat →
  (∀ i p, probs !! i = Some p →
     get_prob dbm (window_phrase tokens ngram i) = Ok p ∧ fbool p = true) →
  fbool (inverse_sum probs) = false →
  GetPhraseProb dbm word = Raise ZeroDivisionError.
Proof.
  intros tokens n Hn Hk Hmiss Hlen Hprobs Hsum.
  rewrite (GetPhraseProb_reach dbm word ngram k Hk Hmiss). fold tokens.
  destruct ngram as [|ngram]; [lia|].
  rewrite orders_S. fold n. destruct (Nat.leb_spec n (S ngram)) as [|_]; [lia|].
  rewrite (scan_windows_found dbm tokens (S ngram) _ probs []).
  - simpl. unfold combine. rewrite sum_inverses_spec.
    + simpl. fold (inverse_sum probs). unfold truediv. rewrite Hsum. reflexivity.
    + apply Forall_lookup. intros i p Hp. apply (Hprobs i p Hp).
  - apply Forall2_same_length_lookup_2.
    + rewrite length_seq. lia.
    + intros i j p Hj Hp. apply lookup_seq in Hj as [-> _]. apply (Hprobs i p Hp).
Qed.
End BackoffMore.

Section UnitTable.
Variable parse : str → option Q.



Lemma table_unit_nonneg (dbm : gmap str str) : table_unit parse dbm → table_nonneg parse dbm.
Proof.
  intros Hu key v Hkey Hv. destruct (Hu key v Hkey Hv) as (q & Hq & Hle & _). by exists q.
Qed.






End UnitTable.

(** ** Decimal numerals, OutputIndex and ReadKeywords *)

Lemma lit_String (a : ascii) (s : string) : lit (String a s) = N_of_ascii a :: lit s.
Proof. reflexivity. Qed.

Lemma string_of_uint_digits (d : Decimal.uint) :
  Forall (λ c, PyStr.digit c = true) (lit (NilEmpty.string_of_uint d)).
Proof.
  induction d; simpl NilEmpty.string_of_uint; [constructor|..];
    rewrite lit_String; (constructor; [reflexivity|assumption]).
Qed.

Lemma of_N_digits (n : N) : Forall (λ c, PyStr.digit c = true) (PyStr.of_N n).
Proof. apply string_of_uint_digits. Qed.

Lemma of_N_nonempty (n : N) : PyStr.of_N n ≠ [].
Proof.
  unfold PyStr.of_N. intros Hnil.
  assert (NilEmpty.string_of_uint (N.to_uint n) = EmptyString) as Hs.
  { apply lit_inj. exact Hnil. }
  apply (f_equal NilEmpty.uint_of_string) in Hs. rewrite NilEmpty.usu in Hs.
  simpl in Hs. injection Hs as Hs. apply (f_equal N.of_uint) in Hs.
  rewrite DecimalN.Unsigned.of_to in Hs. simpl in Hs. subst n. vm_compute in Hnil.
  discriminate Hnil.
Qed.

Lemma of_Z_chars (z : Z) :
  Forall (λ c, PyStr.digit c = true ∨ c = 45%N) (PyStr.of_Z z).
Proof.
  unfold PyStr.of_Z. destruct (z <? 0).
  - constructor; [by right|]. eapply Forall_impl; [apply of_N_digits|]. by left.
  - eapply Forall_impl; [apply of_N_digits|]. by left.
Qed.

Lemma of_Z_nonempty (z : Z) : PyStr.of_Z z ≠ [].
Proof. unfold PyStr.of_Z. destruct (z <? 0); [done|apply of_N_nonempty]. Qed.

Lemma of_Z_no_comma (z : Z) : 44%N ∉ PyStr.of_Z z.
Proof.
  intros Hin. pose proof (of_Z_chars z) as Hall.
  rewrite Forall_forall in Hall. destruct (Hall _ Hin) as [Hd|Hm]; discriminate.
Qed.

Lemma of_Z_inj (a b : Z) : PyStr.of_Z a = PyStr.of_Z b → a = b.
Proof.
  unfold PyStr.of_Z.
  destruct (Z.ltb_spec a 0) as [Ha|Ha], (Z.ltb_spec b 0) as [Hb|Hb]; intros Heq.
  - injection Heq as Heq. apply of_N_inj in Heq. lia.
  - pose proof (of_N_digits (Z.to_N b)) as Hall. rewrite <- Heq in Hall.
    inversion Hall as [|? ? Hd _]. discriminate Hd.
  - pose proof (of_N_digits (Z.to_N a)) as Hall. rewrite Heq in Hall.
    inversion Hall as [|? ? Hd _]. discriminate Hd.
  - apply of_N_inj in Heq. lia.
Qed.

(** *** OutputIndex *)

Lemma join_nonempty (sep : N) (ws : list str) :
  ws ≠ [] → Forall (λ w, w ≠ []) ws → PyStr.join sep ws ≠ [].
Proof.
  intros Hne Hall. destruct Hall as [|w ws Hw _]; [done|].
  destruct ws; simpl; [exact Hw|]. by destruct w.
Qed.

Lemma join_of_Z_inj (l l' : list Z) :
  PyStr.join 44 (PyStr.of_Z <$> l) = PyStr.join 44 (PyStr.of_Z <$> l') → l = l'.
Proof.
  intros Heq.
  assert (∀ k : list Z, k ≠ [] → PyStr.join 44 (PyStr.of_Z <$> k) ≠ []) as Hne.
  { intros k Hk. apply join_nonempty; [by destruct k|].
    apply Forall_fmap, Forall_true. intros z. apply of_Z_nonempty. }
  assert (∀ k : list Z, Forall (λ w : str, 44%N ∉ w) (PyStr.of_Z <$> k)) as Hsep.
  { intros k. apply Forall_fmap, Forall_true. intros z. apply of_Z_no_comma. }
  destruct (decide (l = [])) as [->|Hl], (decide (l' = [])) as [->|Hl']; [done|..].
  - exfalso. by apply (Hne l' Hl').
  - exfalso. by apply (Hne l Hl).
  - apply (f_equal (PyStr.split 44)) in Heq.
    rewrite !split_join in Heq by (try apply Hsep; by destruct l; destruct l').
    assert (Inj (=) (=) PyStr.of_Z) as Hinj by (intros a b; apply of_Z_inj).
    revert Heq. apply (inj (fmap PyStr.of_Z)).
Qed.

(** X17.  The value written for a record depends on the samples only, not
    on the count nor on the order of the samples, and it determines them: two
    records have the same value exactly when their samples are the same up
    to order. *)
Theorem index_value_samples (record record' : list Z) :
  index_value record = index_value record' ↔ samples_of record ≡ₚ samples_of record'.
Proof.
  unfold index_value, samples_of. split.
  - intros Heq%join_of_Z_inj.
    rewrite <- (merge_sort_Permutation Z.le (tail record)), Heq.
    apply merge_sort_Permutation.
  - intros Hperm. do 2 f_equal.
    apply (StronglySorted_unique Z.le); try apply StronglySorted_merge_sort; try apply _.
    by rewrite !merge_sort_Permutation.
Qed.

Section Output.
Context {R : PyRandom}.

Lemma OutputIndex_lookup (b : MakeIndexBatch) (key : str) :
  output_dbm (OutputIndex b) !! key
  = match word_index b !! key with
    | Some ids => Some (index_value ids)
    | None => output_dbm b !! key
    end.
Proof.
  unfold OutputIndex. simpl.
  apply (map_fold_weak_ind (λ (r : gmap str str) (m : gmap str (list Z)),
           r !! key = match m !! key with
                      | Some ids => Some (index_value ids)
                      | None => output_dbm b !! key
                      end)).
  - by rewrite lookup_empty.
  - intros word ids m r Hnone IH. destruct (decide (word = key)) as [->|Hne].
    + by rewrite !lookup_insert_eq.
    + by rewrite !lookup_insert_ne.
Qed.

(** X18.  After [OutputIndex] the store holds, under every phrase of the
    index, the value of its record, overwriting whatever was stored under that
    key; every other key of the store is as it was. *)
Theorem OutputIndex_records (b : MakeIndexBatch) (key : str) :
  output_dbm (OutputIndex b) !! key
  = match word_index b !! key with
    | Some record => Some (index_value record)
    | None => output_dbm b !! key
    end.
Proof. apply OutputIndex_lookup. Qed.
End Output.

Section Keywords.
Context {U : Unicode} {C : Collaborators} {R : PyRandom}.

Lemma read_keywords_fold (lines : list str) (keywords : gset str) (kw : str) :
  kw ∈ foldl (λ keywords line,
        let line := PyStr.strip line in
        if bool_decide (line = []) then keywords
        else
          let line := lower line in
          let norm_line := PyStr.join 32 (Tokenize (lit "en") line false true) in
          {[norm_line]} ∪ ({[line]} ∪ keywords)) keywords lines
  ↔ kw ∈ keywords
    ∨ ∃ line, line ∈ lines ∧ PyStr.strip line ≠ [] ∧ kw ∈ keywords_of_line line.
Proof.
  revert keywords. induction lines as [|line lines IH]; intros keywords.
  - simpl. split; [by left|]. intros [?|(line & []%elem_of_nil & _)]. done.
  - simpl foldl. rewrite IH. unfold keywords_of_line.
    destruct (bool_decide_reflect (PyStr.strip line = [])) as [Hblank|Hline].
    + split.
      * intros [?|(l & Hl & Hne & Hkw)]; [by left|]. right. exists l.
        split; [by right|done].
      * intros [?|(l & Hl & Hne & Hkw)]; [by left|]. right. exists l.
        apply elem_of_cons in Hl as [->|Hl]; [done|]. done.
    + split.
      * intros [Hin|(l & Hl & Hne & Hkw)].
        -- apply elem_of_union in Hin as [Hin|Hin].
           { right. exists line. split; [by left|]. split; [done|].
             apply elem_of_singleton in Hin as ->. right. by left. }
           apply elem_of_union in Hin as [Hin|Hin]; [|by left].
           right. exists line. split; [by left|]. split; [done|].
           apply elem_of_singleton in Hin as ->. by left.
        -- right. exists l. split; [by right|done].
      * intros [?|(l & Hl & Hne & Hkw)];
          [left; apply elem_of_union; right; apply elem_of_union; by right|].
        apply elem_of_cons in Hl as [->|Hl].
        -- left. apply elem_of_cons in Hkw as [->|Hkw].
           ++ apply elem_of_union. right. apply elem_of_union. left.
              by apply elem_of_singleton.
           ++ apply list_elem_of_singleton in Hkw as ->. apply elem_of_union. left.
              by apply elem_of_singleton.
        -- right. by exists l.
Qed.

(** X19.  After [ReadKeywords] the focus keywords are the ones there were
    before, together with, for every line of the keyword file that is not
    blank, the stripped line in lower case and its tokens joined by spaces. *)
Theorem ReadKeywords_spec (b : MakeIndexBatch) (kw : str) :
  kw ∈ focus_keywords (ReadKeywords b)
  ↔ kw ∈ focus_keywords b
    ∨ ∃ line, line ∈ open_lines (keywords_path b) ∧ PyStr.strip line ≠ []
        ∧ kw ∈ keywords_of_line line.
Proof. unfold ReadKeywords. simpl. apply read_keywords_fold. Qed.
End Keywords.

(** ** The run as a whole *)

Section RunSpec.
Context {U : Unicode} {C : Collaborators} {R : PyRandom} {F : PyFloat}.

(** *** The word counter does not influence the phrases *)

Lemma window_num_words (kw : gset str) (rest : list str) (first : bool) (tokens : list str)
    (phrases : list str) (uniq : gset str) (n m : Z) :
  (window kw rest first tokens (phrases, uniq, n)).1
  = (window kw rest first tokens (phrases, uniq, m)).1.
Proof.
  revert first tokens phrases uniq n m.
  induction rest as [|word rest IH]; intros first tokens phrases uniq n m; [reflexivity|].
  rewrite !window_cons.
  destruct (has_alnum (core word)); [|reflexivity]. cbn [negb].
  destruct (head_symbol word && negb first); [reflexivity|]. cbv zeta.
  unfold record_phrase.
  destruct (is_good kw _ && negb _); destruct (tail_symbol word); try reflexivity; apply IH.
Qed.

Lemma extract_num_words (kw : gset str) (mn : Z) (words : list str)
    (phrases : list str) (uniq : gset str) (n m : Z) :
  (extract kw mn words (phrases, uniq, n)).1 = (extract kw mn words (phrases, uniq, m)).1.
Proof.
  revert phrases uniq n m.
  induction words as [|w words IH]; intros phrases uniq n m; [reflexivity|].
  simpl extract.
  pose proof (window_num_words kw (take (Z.to_nat mn) (w :: words)) true [] phrases uniq n m)
    as Hw.
  destruct (window kw _ true [] (phrases, uniq, n)) as [[ph1 uq1] n1].
  destruct (window kw _ true [] (phrases, uniq, m)) as [[ph2 uq2] n2].
  simpl in Hw. injection Hw as -> ->. apply IH.
Qed.

(** *** Ranking and the cap *)

Lemma mapM_scored {A B} (f : A → result B) (l : list A) (scored : list (A * B)) :
  mapM (λ x, y ← f x; mret (x, y)) l = Ok scored → scored.*1 = l.
Proof.
  revert scored. induction l as [|x l IH]; intros scored; simpl.
  - intros [= <-]. reflexivity.
  - destruct (f x) as [y|e]; simpl; [|discriminate].
    destruct (mapM _ l) as [k|e]; simpl; [|discriminate].
    intros [= <-]. simpl. f_equal. by apply IH.
Qed.

Lemma rank_phrases_perm (b : MakeIndexBatch) (phrases ranked : list str) :
  rank_phrases b phrases = Ok ranked → ranked ≡ₚ phrases.
Proof.
  unfold rank_phrases. destruct (_ >? _); [|by intros [= <-]].
  destruct (phrase_prob_dbm b) as [dbm|]; [|by intros [= <-]].
  destruct (mapM _ phrases) as [scored|e] eqn:Hscored; simpl; [|discriminate].
  intros [= <-]. rewrite sorted_by_snd_perm. by rewrite (mapM_scored _ _ _ Hscored).
Qed.

Lemma rank_phrases_config (b b' : MakeIndexBatch) (phrases : list str) :
  same_config b b' → rank_phrases b phrases = rank_phrases b' phrases.
Proof. intros (Hw & _ & _ & Hd & _). unfold rank_phrases. by rewrite Hw, Hd. Qed.

Lemma indexed_phrases_config (b b' : MakeIndexBatch) (line : str) :
  same_config b b' → indexed_phrases b line = indexed_phrases b' line.
Proof.
  intros Hc. unfold indexed_phrases, line_phrases.
  rewrite (rank_phrases_config b b' _ Hc). destruct Hc as (-> & -> & _ & _ & ->). reflexivity.
Qed.

Lemma run_calls_config (b b' : MakeIndexBatch) (n : Z) (lines : list str) :
  same_config b b' → run_calls b n lines = run_calls b' n lines.
Proof.
  intros Hc. revert n. induction lines as [|line lines IH]; intros n; [reflexivity|].
  simpl. by rewrite IH, (indexed_phrases_config b b' line Hc).
Qed.

Lemma slice_to_sublist {A} (k : Z) (l : list A) : slice_to k l `sublist_of` l.
Proof. unfold slice_to. destruct (0 <=? k); apply sublist_take. Qed.

Lemma line_phrases_spec (b : MakeIndexBatch) (line : str) :
  NoDup (line_phrases b line)
  ∧ ∀ p, p ∈ line_phrases b line
         ↔ candidate (focus_keywords b) (max_ngram b)
             (PyStr.split 32 (mod_sentence_of line)) p.
Proof. apply extract_fresh. Qed.

Lemma indexed_phrases_spec (b : MakeIndexBatch) (line : str) :
  NoDup (indexed_phrases b line)
  ∧ (∀ p, p ∈ indexed_phrases b line → p ∈ line_phrases b line)
  ∧ (0 ≤ max_words b → Z.of_nat (length (indexed_phrases b line)) ≤ max_words b)
  ∧ (Z.of_nat (length (line_phrases b line)) ≤ max_words b →
     indexed_phrases b line = line_phrases b line).
Proof.
  destruct (line_phrases_spec b line) as [Hnd _]. unfold indexed_phrases.
  split; [|split; [|split]].
  - destruct (rank_phrases b (line_phrases b line)) as [ranked|e] eqn:Hrank; [|constructor].
    apply (sublist_NoDup _ ranked); [|apply slice_to_sublist].
    by rewrite (rank_phrases_perm _ _ _ Hrank).
  - intros p Hp.
    destruct (rank_phrases b (line_phrases b line)) as [ranked|e] eqn:Hrank;
      [|by apply elem_of_nil in Hp].
    rewrite <- (rank_phrases_perm _ _ _ Hrank).
    eapply elem_of_sublist; [exact Hp|apply slice_to_sublist].
  - intros Hmw. destruct (rank_phrases b (line_phrases b line)) as [ranked|e]; [|simpl; lia].
    unfold slice_to. destruct (Z.leb_spec 0 (max_words b)); [|lia].
    rewrite length_take. lia.
  - intros Hcap. rewrite rank_phrases_under_cap by exact Hcap. by apply slice_to_all.
Qed.

(** X8.  The phrases with which a line is indexed have no repetition and
    are candidates of the line; when [max_words] is not negative there are at
    most [max_words] of them; and when the line has no more than [max_words]
    candidates they are all the candidates, in extraction order.  This holds
    in any float arithmetic, and whether or not the scoring raises. *)
Theorem indexed_phrases_bound (b : MakeIndexBatch) (line : str) :
  NoDup (indexed_phrases b line)
  ∧ (∀ p, p ∈ indexed_phrases b line →
       candidate (focus_keywords b) (max_ngram b) (PyStr.split 32 (mod_sentence_of line)) p)
  ∧ (0 ≤ max_words b → Z.of_nat (length (indexed_phrases b line)) ≤ max_words b)
  ∧ (Z.of_nat (length (line_phrases b line)) ≤ max_words b →
     indexed_phrases b line = line_phrases b line).
Proof.
  destruct (indexed_phrases_spec b line) as (Hnd & Hsub & Hcap & Hall).
  split; [exact Hnd|]. split; [|split; [exact Hcap|exact Hall]].
  intros p Hp. by apply line_phrases_spec, Hsub.
Qed.

Lemma indexed_phrase_head (b : MakeIndexBatch) (line p : str) :
  p ∈ indexed_phrases b line → ∃ c, head p = Some c ∧ wordchar c = true.
Proof.
  intros Hp. destruct (indexed_phrases_spec b line) as (_ & Hsub & _).
  apply Hsub, line_phrases_spec in Hp. by eapply candidate_head.
Qed.

(** *** One line *)

Lemma process_line_step (st : state) (line : str) :
  PyStr.strip line ≠ [] →
  PrimaryHash (mod_sentence_of (PyStr.strip line)) ∉ sentence_hashes st →
  index_wf (word_index (self st)) → scoring_ok (self st) →
  ∃ st', process_line st line = Ok st'
    ∧ same_config (self st) (self st')
    ∧ updates (max_samples (self st))
        ((λ phrase, (num_lines st, phrase)) <$> indexed_phrases (self st) (PyStr.strip line))
        (word_index (self st), random (self st))
      = Ok (word_index (self st'), random (self st'))
    ∧ index_wf (word_index (self st')).
Proof.
  intros Hline Hnew Hwf Hok. unfold process_line.
  rewrite (bool_decide_eq_false_2 _ Hline), (bool_decide_eq_false_2 _ Hnew).
  pose proof (extract_num_words (focus_keywords (self st)) (max_ngram (self st))
                (PyStr.split 32 (mod_sentence_of (PyStr.strip line))) [] ∅ (num_words st) 0)
    as Hex.
  unfold indexed_phrases, line_phrases.
  destruct (extract _ _ _ ([], ∅, num_words st)) as [[phrases uniq] nw].
  rewrite <- Hex. cbn [fst].
  destruct (rank_phrases_total (self st) phrases Hok) as [ranked ->]. simpl.
  destruct (update_all_wf (max_samples (self st)) (num_lines st)
              (slice_to (max_words (self st)) ranked)
              (word_index (self st)) (random (self st)) Hwf)
    as (idx' & g' & Hupd & Hwf').
  rewrite Hupd. simpl. eexists. split; [reflexivity|]. simpl.
  split; [done|]. split; [|exact Hwf']. by rewrite <- update_all_updates.
Qed.

Lemma updates_app (ms : Z) (calls calls' : list (Z * str)) (index : gmap str (list Z) * rng) :
  updates ms (calls ++ calls') index = updates ms calls index ≫= updates ms calls'.
Proof.
  revert index. induction calls as [|[i q] calls IH]; intros index; simpl.
  - reflexivity.
  - destruct (update ms i q index) as [index'|e]; simpl; [apply IH|reflexivity].
Qed.

Lemma scoring_ok_config (b b' : MakeIndexBatch) :
  same_config b b' → scoring_ok b → scoring_ok b'.
Proof. intros (_ & _ & _ & Hd & _). unfold scoring_ok. by rewrite Hd. Qed.

Lemma same_config_trans (b1 b2 b3 : MakeIndexBatch) :
  same_config b1 b2 → same_config b2 b3 → same_config b1 b3.
Proof.
  intros (? & ? & ? & ? & ?) (? & ? & ? & ? & ?). repeat split; congruence.
Qed.

(** *** The whole input *)

Lemma process_lines_calls (stdin : list str) (st : state) :
  index_wf (word_index (self st)) → scoring_ok (self st) →
  ∃ st', process_lines st stdin = Ok st'
    ∧ same_config (self st) (self st')
    ∧ updates (max_samples (self st))
        (run_calls (self st) (num_lines st) (accepted (sentence_hashes st) stdin))
        (word_index (self st), random (self st))
      = Ok (word_index (self st'), random (self st')).
Proof.
  revert st. induction stdin as [|line stdin IH]; intros st Hwf Hok.
  - exists st. simpl. split; [reflexivity|]. split; [done|reflexivity].
  - change (process_lines st (line :: stdin))
      with (process_line st line ≫= λ st1, process_lines st1 stdin).
    simpl accepted.
    destruct (decide (PyStr.strip line = [])) as [Hblank|Hline].
    { rewrite (blank_line_skipped st line Hblank), (bool_decide_eq_true_2 _ Hblank).
      apply IH; assumption. }
    rewrite (bool_decide_eq_false_2 _ Hline).
    destruct (decide (PrimaryHash (mod_sentence_of (PyStr.strip line)) ∈ sentence_hashes st))
      as [Hseen|Hnew].
    { rewrite (seen_line_skipped st line Hseen), (bool_decide_eq_true_2 _ Hseen).
      apply IH; assumption. }
    rewrite (bool_decide_eq_false_2 _ Hnew).
    destruct (process_line_step st line Hline Hnew Hwf Hok)
      as (st1 & Hrun1 & Hc1 & Hupd1 & Hwf1).
    destruct (process_line_accepted st line Hline Hnew Hwf Hok)
      as (st1' & Hrun1' & _ & Hnum & Hseen & _).
    rewrite Hrun1 in Hrun1'. injection Hrun1' as <-. rewrite Hrun1.
    destruct (IH st1 Hwf1 (scoring_ok_config _ _ Hc1 Hok)) as (st' & Hrun & Hc & Hupd).
    exists st'. split; [exact Hrun|]. split; [by eapply same_config_trans|].
    simpl run_calls. rewrite updates_app, Hupd1. simpl.
    rewrite Hnum, Hseen in Hupd. rewrite (run_calls_config _ _ _ _ Hc1).
    destruct Hc1 as (_ & _ & -> & _). exact Hupd.
Qed.

(** *** The occurrences of a phrase in a run *)

Lemma occurrences_app (phrase : str) (calls calls' : list (Z * str)) :
  occurrences phrase (calls ++ calls')
  = occurrences phrase calls ++ occurrences phrase calls'.
Proof. unfold occurrences. by rewrite filter_app, fmap_app. Qed.

Lemma occurrences_line (n : Z) (phrases : list str) (phrase : str) :
  NoDup phrases →
  occurrences phrase ((λ p, (n, p)) <$> phrases)
  = if bool_decide (phrase ∈ phrases) then [n] else [].
Proof.
  induction 1 as [|p phrases Hp Hnd IH]; [reflexivity|].
  rewrite fmap_cons. change ((n, p) :: ?l) with ([(n, p)] ++ l).
  rewrite occurrences_app, IH. unfold occurrences at 1.
  rewrite filter_cons, filter_nil. simpl.
  destruct (decide (p = phrase)) as [->|Hne]; simpl.
  - rewrite (bool_decide_eq_false_2 _ Hp), bool_decide_eq_true_2; [done|by left].
  - destruct (bool_decide_reflect (phrase ∈ phrases)) as [Hin|Hout].
    + rewrite bool_decide_eq_true_2; [done|by right].
    + rewrite bool_decide_eq_false_2; [done|].
      intros [?|?]%elem_of_cons; [congruence|done].
Qed.

Lemma occurrences_run_calls (b : MakeIndexBatch) (phrase : str) (n : Z) (lines : list str) :
  (∀ line_id, line_id ∈ occurrences phrase (run_calls b n lines)
     ↔ ∃ i line, line_id = n + Z.of_nat i ∧ lines !! i = Some line
          ∧ phrase ∈ indexed_phrases b line)
  ∧ length (occurrences phrase (run_calls b n lines))
    = length (filter (λ line, phrase ∈ indexed_phrases b line) lines).
Proof.
  revert n. induction lines as [|line lines IH]; intros n.
  - split; [|reflexivity]. intros line_id. split; [by intros ?%elem_of_nil|].
    by intros (i & line & _ & ? & _).
  - simpl run_calls. rewrite occurrences_app, occurrences_line
      by apply indexed_phrases_spec.
    destruct (IH (n + 1)) as [Hin Hlen]. split.
    + intros line_id. rewrite elem_of_app, Hin. split.
      * intros [Hhere|(i & l & -> & Hl & Hp)].
        -- destruct (bool_decide_reflect (phrase ∈ indexed_phrases b line)) as [Hp|];
             [|by apply elem_of_nil in Hhere].
           apply list_elem_of_singleton in Hhere as ->.
           exists 0%nat, line. split; [lia|done].
        -- exists (S i), l. split; [lia|done].
      * intros (i & l & -> & Hl & Hp). destruct i as [|i].
        -- left. injection Hl as ->. rewrite bool_decide_eq_true_2 by done.
           apply list_elem_of_singleton. lia.
        -- right. exists i, l. split; [lia|done].
    + rewrite length_app, Hlen, filter_cons.
      destruct (decide (phrase ∈ indexed_phrases b line)) as [Hp|Hp].
      * rewrite bool_decide_eq_true_2 by done. reflexivity.
      * rewrite bool_decide_eq_false_2 by done. reflexivity.
Qed.

(** *** The index and the store after a run *)

Lemma run_index_shape (b : MakeIndexBatch) (stdin : list str) :
  word_index b = ∅ → scoring_ok b →
  ∃ st', process_lines (mkState b 0 0 ∅) stdin = Ok st'
    ∧ same_config b (self st')
    ∧ index_shape (max_samples b) (run_calls b 0 (accepted ∅ stdin)) (word_index (self st'))
    ∧ output_dbm (self st') = store_lines 0 (accepted ∅ stdin) (output_dbm b).
Proof.
  intros Hempty Hok.
  assert (index_wf (word_index b)) as Hwf by (rewrite Hempty; apply index_wf_empty).
  destruct (process_lines_calls stdin (mkState b 0 0 ∅) Hwf Hok) as (st' & Hrun & Hc & Hupd).
  destruct (process_lines_spec stdin (mkState b 0 0 ∅) Hwf Hok) as (st2 & Hrun2 & _ & Hdbm).
  rewrite Hrun in Hrun2. injection Hrun2 as <-.
  exists st'. split; [exact Hrun|]. split; [exact Hc|]. split; [|exact Hdbm].
  simpl in Hupd. rewrite Hempty in Hupd.
  destruct (updates_index_shape (max_samples b) (run_calls b 0 (accepted ∅ stdin)) (random b))
    as (idx & g' & Hupd' & Hshape).
  rewrite Hupd in Hupd'. injection Hupd' as <- _. exact Hshape.
Qed.

(** X21.  After [ProcessRecords] on a run that starts with an empty index
    and whose scoring does not raise: a phrase has a record exactly when some
    accepted line is indexed with it, and the count of the record is the
    number of accepted lines that are. *)
Theorem count_is_line_frequency (b : MakeIndexBatch) (stdin : list str) :
  word_index b = ∅ → scoring_ok b →
  ∃ b', ProcessRecords b stdin = Ok b' ∧
    ∀ phrase,
      let lines := filter (λ line, phrase ∈ indexed_phrases b line) (accepted ∅ stdin) in
      match word_index b' !! phrase with
      | Some record => count_of record = Z.of_nat (length lines) ∧ lines ≠ []
      | None => lines = []
      end.
Proof.
  intros Hempty Hok.
  destruct (run_index_shape b stdin Hempty Hok) as (st' & Hrun & _ & Hshape & _).
  exists (self st'). unfold ProcessRecords. rewrite Hrun. split; [reflexivity|].
  intros phrase. cbv zeta. pose proof (Hshape phrase) as Hp.
  destruct (occurrences_run_calls b phrase 0 (accepted ∅ stdin)) as [_ Hlen].
  set (lines := filter (λ line, phrase ∈ indexed_phrases b line) (accepted ∅ stdin)) in *.
  destruct (word_index (self st') !! phrase) as [record|].
  - destruct Hp as (Hne & samples & -> & _). simpl. rewrite Hlen. split; [reflexivity|].
    intros Hnil. rewrite Hnil in Hlen. by destruct (occurrences phrase _).
  - rewrite Hp in Hlen. by destruct lines.
Qed.

(** X22.  After such a run, every sample of the record of a phrase is the
    number of an accepted line that was indexed with the phrase, and the store
    holds that line under the key of that number. *)
Theorem samples_point_to_lines (b : MakeIndexBatch) (stdin : list str) :
  word_index b = ∅ → scoring_ok b →
  ∃ b', ProcessRecords b stdin = Ok b' ∧
    ∀ phrase record line_id,
      word_index b' !! phrase = Some record → line_id ∈ samples_of record →
      ∃ i line, line_id = Z.of_nat i ∧ accepted ∅ stdin !! i = Some line
        ∧ phrase ∈ indexed_phrases b line
        ∧ output_dbm b' !! line_key line_id = Some line.
Proof.
  intros Hempty Hok.
  destruct (run_index_shape b stdin Hempty Hok) as (st' & Hrun & _ & Hshape & Hdbm).
  exists (self st'). unfold ProcessRecords. rewrite Hrun. split; [reflexivity|].
  intros phrase record line_id Hrec Hid. pose proof (Hshape phrase) as Hp.
  rewrite Hrec in Hp. destruct Hp as (_ & samples & -> & _ & Hsub & _). simpl in Hid.
  apply Hsub in Hid.
  destruct (occurrences_run_calls b phrase 0 (accepted ∅ stdin)) as [Hin _].
  apply Hin in Hid as (i & line & -> & Hline & Hp).
  exists i, line. split; [lia|]. split; [exact Hline|]. split; [exact Hp|].
  rewrite Hdbm. by apply store_lines_lookup.
Qed.

(** *** Run *)

Lemma line_key_head (n : Z) : head (line_key n) = Some 91%N.
Proof. reflexivity. Qed.

Lemma bracket_not_wordchar : wordchar 91 = false.
Proof. reflexivity. Qed.

Lemma Run_prepared (b : MakeIndexBatch) (stdin : list str) :
  Run b stdin = ProcessRecords (prepared b) stdin ≫= λ b', Ok (OutputIndex b').
Proof. reflexivity. Qed.

(** X23.  [Run], from an object with an empty index and a scoring that
    does not raise, returns, and the store it leaves holds the [i]-th
    accepted line under the key [[i]], the value of its record under every
    phrase of the index, and nothing else: no phrase record overwrites a line
    record, since a phrase starts with a hyphen, a Latin letter, a digit or an
    underscore and a line key with a bracket. *)
Theorem Run_store (b : MakeIndexBatch) (stdin : list str) :
  word_index b = ∅ → scoring_ok (prepared b) →
  ∃ b', Run b stdin = Ok b'
    ∧ (∀ i line, accepted ∅ stdin !! i = Some line →
         output_dbm b' !! line_key (Z.of_nat i) = Some line)
    ∧ (∀ phrase record, word_index b' !! phrase = Some record →
         output_dbm b' !! phrase = Some (index_value record))
    ∧ (∀ key, is_Some (output_dbm b' !! key) →
         (∃ i, (i < length (accepted ∅ stdin))%nat ∧ key = line_key (Z.of_nat i))
         ∨ is_Some (word_index b' !! key)).
Proof.
  intros Hempty Hok.
  assert (word_index (prepared b) = ∅) as Hempty'.
  { unfold prepared. simpl. destruct (bool_decide (phrase_prob_path b = [])); simpl;
      destruct (bool_decide (keywords_path b = [])); exact Hempty. }
  destruct (run_index_shape (prepared b) stdin Hempty' Hok) as (st' & Hrun & Hc & Hshape & Hdbm).
  change (output_dbm (prepared b)) with (∅ : gmap str str) in Hdbm.
  rewrite Run_prepared. unfold ProcessRecords. rewrite Hrun. simpl.
  exists (OutputIndex (self st')). split; [reflexivity|].
  change (word_index (OutputIndex (self st'))) with (word_index (self st')).
  assert (∀ n, word_index (self st') !! line_key n = None) as Hfresh.
  { intros n. pose proof (Hshape (line_key n)) as Hp.
    destruct (word_index (self st') !! line_key n) as [record|]; [|reflexivity].
    destruct Hp as (Hne & _). exfalso.
    destruct (occurrences (line_key n) _) as [|line_id occ] eqn:Hocc; [done|].
    destruct (occurrences_run_calls (prepared b) (line_key n) 0 (accepted ∅ stdin)) as [Hin _].
    destruct (Hin line_id) as [Hex _]. rewrite Hocc in Hex.
    destruct Hex as (i & line & _ & _ & Hp); [by left|].
    apply indexed_phrase_head in Hp as (c & Hc' & Hw).
    rewrite line_key_head in Hc'. injection Hc' as <-. by rewrite bracket_not_wordchar in Hw. }
  split; [|split].
  - intros i line Hi. rewrite OutputIndex_lookup, Hfresh, Hdbm.
    by apply (store_lines_lookup 0).
  - intros phrase record Hrec. by rewrite OutputIndex_lookup, Hrec.
  - intros key Hkey. rewrite OutputIndex_lookup in Hkey.
    destruct (word_index (self st') !! key) as [record|]; [by right|]. left.
    rewrite Hdbm in Hkey.
    destruct (store_lines_keys 0 _ _ _ Hkey) as [Habs|Hex]; [|exact Hex].
    rewrite lookup_empty in Habs. by destruct Habs.
Qed.
End RunSpec.

(** ** Duplicates, keys and the keyword file *)

Section Dedup.
Context {U : Unicode} {C : Collaborators} {R : PyRandom} {F : PyFloat}.

Lemma process_line_total (st : state) (line : str) :
  index_wf (word_index (self st)) → scoring_ok (self st) →
  ∃ st', process_line st line = Ok st'
    ∧ (PyStr.strip line ≠ [] →
       PrimaryHash (mod_sentence_of (PyStr.strip line)) ∈ sentence_hashes st').
Proof.
  intros Hwf Hok.
  destruct (decide (PyStr.strip line = [])) as [Hblank|Hline].
  { exists st. split; [by apply blank_line_skipped|done]. }
  destruct (decide (PrimaryHash (mod_sentence_of (PyStr.strip line)) ∈ sentence_hashes st))
    as [Hseen|Hnew].
  { exists st. split; [by apply seen_line_skipped|done]. }
  destruct (process_line_accepted st line Hline Hnew Hwf Hok) as (st' & Hrun & _ & _ & Hs & _).
  exists st'. split; [exact Hrun|]. intros _. rewrite Hs. apply elem_of_union. left.
  by apply elem_of_singleton.
Qed.

Lemma same_sentence_skipped (st : state) (line line' : str) :
  index_wf (word_index (self st)) → scoring_ok (self st) →
  PyStr.strip line ≠ [] →
  mod_sentence_of (PyStr.strip line') = mod_sentence_of (PyStr.strip line) →
  ∃ st', process_line st line = Ok st' ∧ process_line st' line' = Ok st'.
Proof.
  intros Hwf Hok Hline Hsame.
  destruct (process_line_total st line Hwf Hok) as (st' & Hrun & Hseen).
  exists st'. split; [exact Hrun|]. apply seen_line_skipped. rewrite Hsame. by apply Hseen.
Qed.

(** X2.  Two lines with the same first field and different later fields (the
    same source sentence with another translation), one after the other: the
    first is processed, and the second then leaves the whole state as it is. *)
Theorem other_translation_skipped (st : state) (line line' field rest rest' : str) :
  index_wf (word_index (self st)) → scoring_ok (self st) →
  PyStr.strip line = field ++ 9%N :: rest →
  PyStr.strip line' = field ++ 9%N :: rest' →
  9%N ∉ field →
  ∃ st', process_line st line = Ok st' ∧ process_line st' line' = Ok st'.
Proof.
  intros Hwf Hok Hl Hl' Hfield. apply same_sentence_skipped; [done..| |].
  - rewrite Hl. by destruct field.
  - rewrite Hl, Hl'. by apply first_field_only.
Qed.

(** X3.  Two ASCII lines that differ in the case of letters only, one after
    the other: the first is processed, and the second then leaves the whole
    state as it is. *)
Theorem case_variant_skipped (st : state) (line line' : str) :
  index_wf (word_index (self st)) → scoring_ok (self st) →
  PyStr.isascii line = true → PyStr.isascii line' = true →
  PyStr.ascii_lower <$> line = PyStr.ascii_lower <$> line' →
  ∃ st', process_line st line = Ok st' ∧ process_line st' line' = Ok st'.
Proof.
  intros Hwf Hok Ha Ha' Hcase.
  destruct (decide (PyStr.strip line = [])) as [Hblank|Hline].
  - exists st. split; [by apply blank_line_skipped|]. apply blank_line_skipped.
    apply (f_equal PyStr.strip) in Hcase.
    rewrite !(strip_fmap PyStr.ascii_lower) in Hcase by apply isspace_ascii_lower.
    rewrite Hblank in Hcase. by destruct (PyStr.strip line').
  - apply same_sentence_skipped; [done..|]. symmetry. by apply case_fold_sentence.
Qed.
End Dedup.

Section NoCollision.
Context {U : Unicode} {C : Collaborators}.

(** X7.  No extracted phrase is the key of a line, whatever the line
    number: the record of a phrase cannot be mistaken for a line. *)
Theorem phrase_is_no_line_key (kw : gset str) (mn : Z) (words : list str) (nw : Z) :
  Forall (λ phrase, ∀ n, phrase ≠ line_key n) (extract kw mn words ([], ∅, nw)).1.1.
Proof.
  apply Forall_forall. intros p Hp n ->.
  apply extract_fresh in Hp.
  apply candidate_head in Hp as (c & Hc & Hw).
  rewrite line_key_head in Hc. injection Hc as <-. by rewrite bracket_not_wordchar in Hw.
Qed.
End NoCollision.

Section KeywordFile.
Context {U : Unicode} {C : Collaborators} {R : PyRandom}.

(** X20.  A keyword file with blank lines only, read into an empty set of
    keywords, leaves the set empty, and the filter of lines 176-181 then lets
    every phrase through: such a file restricts nothing. *)
Theorem blank_keyword_file_disables_filter (b : MakeIndexBatch) (phrase : str) :
  focus_keywords b = ∅ →
  Forall (λ line, PyStr.strip line = []) (open_lines (keywords_path b)) →
  is_good (focus_keywords (ReadKeywords b)) phrase = true.
Proof.
  intros Hempty Hblank.
  assert (focus_keywords (ReadKeywords b) = ∅) as ->.
  { apply set_eq. intros kw. unfold ReadKeywords. simpl. rewrite read_keywords_fold, Hempty.
    split; [|by intros ?%elem_of_empty].
    intros [?|(line & Hin & Hne & _)]; [done|].
    rewrite Forall_forall in Hblank. by apply Hblank in Hin. }
  unfold is_good. by rewrite bool_decide_eq_true_2.
Qed.
End KeywordFile.

Section Ties.
Context {R : PyRandom}.
Variable parse : str → option Q.

Lemma exact_scoring_unknown (dbm : gmap str str) (phrases : list str) :
  Forall (λ phrase, absent_everywhere dbm (PyStr.split 32 phrase)) phrases →
  mapM (λ phrase, GetPhraseProb (F := exact parse) dbm phrase ≫= λ prob, mret (phrase, prob))
    phrases
  = Ok ((λ phrase, (phrase, base_prob (F := exact parse))) <$> phrases).
Proof.
  induction 1 as [|phrase phrases Habs _ IH]; [reflexivity|].
  simpl. rewrite (GetPhraseProb_absent (F := exact parse)) by exact Habs.
  simpl. simpl in IH. rewrite IH. reflexivity.
Qed.

(** X9.  In exact arithmetic: when none of the candidate phrases of a line is
    known to the table at any order, ranking leaves them in extraction order,
    over the cap as well: they all score [base_prob] and the sort is stable. *)
Theorem unknown_phrases_keep_order (b : MakeIndexBatch) (dbm : gmap str str)
    (phrases : list str) :
  phrase_prob_dbm b = Some dbm →
  Forall (λ phrase, absent_everywhere dbm (PyStr.split 32 phrase)) phrases →
  rank_phrases (F := exact parse) b phrases = Ok phrases.
Proof.
  intros Hdbm Habs. unfold rank_phrases. rewrite Hdbm. destruct (_ >? _); [|reflexivity].
  rewrite (exact_scoring_unknown dbm phrases Habs).
  change (Ok (sorted_by_snd (H := exact parse)
                ((λ phrase, (phrase, base_prob (F := exact parse))) <$> phrases)).*1
          = Ok phrases).
  f_equal.
  transitivity (((λ phrase, (phrase, base_prob (F := exact parse))) <$> phrases).*1).
  - f_equal.
    exact (exact_sorted_equal_keys parse (base_prob (F := exact parse)) phrases []
             (Forall_nil_2 _)).
  - rewrite <- list_fmap_compose. apply list_fmap_id.
Qed.
End Ties.

Lemma single_token_absent (dbm : gmap str str) (w : str) :
  dbm !! w = None → dbm !! ([] : str) = None → 32%N ∉ w →
  absent_everywhere dbm (PyStr.split 32 w).
Proof.
  intros Hw Hnil Hsp ngram index. rewrite split_no_sep_id by exact Hsp.
  unfold window_phrase. destruct index as [|index].
  - rewrite drop_0. destruct ngram as [|ngram]; simpl; [exact Hnil|].
    rewrite take_nil. exact Hw.
  - simpl drop. rewrite drop_nil, take_nil. exact Hnil.
Qed.

(** ** Instances of the statements above *)


Lemma other_translation_skipped_witness :
  ∃ st', process_line (U := ascii_text) (C := plain_tools) (F := exact parse_decimal)
           fresh_state scenario_line_1 = Ok st'
    ∧ process_line (U := ascii_text) (C := plain_tools) (F := exact parse_decimal)
        st' other_translation = Ok st'.
Proof.
  apply (other_translation_skipped (U := ascii_text) (C := plain_tools) (F := exact parse_decimal)
           fresh_state scenario_line_1 other_translation
           (lit "The cat sat.") (lit "neko ga suwat") (lit "le chat")).
  - apply index_wf_empty.
  - exact I.
  - vm_compute. reflexivity.
  - vm_compute. reflexivity.
  - apply (bool_decide_unpack _). vm_compute. exact I.
Defined.

Lemma case_variant_skipped_witness :
  ∃ st', process_line (U := ascii_text) (C := plain_tools) (F := exact parse_decimal)
           fresh_state scenario_line_1 = Ok st'
    ∧ process_line (U := ascii_text) (C := plain_tools) (F := exact parse_decimal)
        st' shouted_line = Ok st'.
Proof.
  apply (case_variant_skipped (U := ascii_text) (C := plain_tools) (F := exact parse_decimal)
           fresh_state scenario_line_1 shouted_line).
  - apply index_wf_empty.
  - exact I.
  - vm_compute. reflexivity.
  - vm_compute. reflexivity.
  - vm_compute. reflexivity.
Defined.

Lemma extract_nothing_witness :
  extract (U := ascii_text) (C := plain_tools) ∅ 0 [lit "the"; lit "cat"] ([], ∅, 0)
  = ([], ∅, 0).
Proof.
  apply (extract_nothing (U := ascii_text) (C := plain_tools) ∅ 0 [lit "the"; lit "cat"]).
  lia.
Defined.

Lemma whole_phrase_hit_witness :
  GetPhraseProb (F := exact parse_decimal) sample_table (lit "the cat")
  = Ok (pymax (H := exact parse_decimal) (5 # 10)%Q (base_prob (F := exact parse_decimal))).
Proof.
  apply (whole_phrase_hit (F := exact parse_decimal) sample_table (lit "the cat") (5 # 10)%Q).
  - vm_compute. lia.
  - vm_compute. reflexivity.
  - vm_compute. reflexivity.
Defined.

Lemma malformed_value_raises_witness :
  GetPhraseProb (F := exact parse_decimal) broken_table (lit "the cat") = Raise ValueError.
Proof.
  apply (malformed_value_raises (F := exact parse_decimal) broken_table (lit "the cat")
           (lit "n/a")).
  - vm_compute. reflexivity.
  - discriminate.
  - vm_compute. reflexivity.
Defined.

Lemma zero_inverse_sum_raises_witness :
  GetPhraseProb (F := exact parse_signed) signed_table (lit "up down")
  = Raise ZeroDivisionError.
Proof.
  apply (zero_inverse_sum_raises (F := exact parse_signed) signed_table (lit "up down") 1 1
           [(5 # 10)%Q; (- (5 # 10))%Q]).
  - simpl. lia.
  - reflexivity.
  - intros j Hj. assert (j = 2%nat) as -> by (simpl in Hj; lia).
    exists 0%Q. split; vm_compute; reflexivity.
  - reflexivity.
  - intros [|[|i]] p Hp; simpl in Hp; [injection Hp as <-..|discriminate];
      split; vm_compute; reflexivity.
  - vm_compute. reflexivity.
Defined.


Lemma full_reservoir_last_slot_witness :
  ∃ word_index g', updates (R := lcg) 2 cat_calls (∅, 0) = Ok (word_index, g') ∧
    ∀ phrase record, word_index !! phrase = Some record →
      2 ≤ count_of record →
      Z.of_nat (length (samples_of record)) = 2 ∧
      samples_of record !! Z.to_nat (2 - 1) = occurrences phrase cat_calls !! Z.to_nat (2 - 1).
Proof. apply (full_reservoir_last_slot (R := lcg) 2 cat_calls 0). lia. Defined.

Lemma capacity_below_two_keeps_first_witness :
  ∃ word_index g', updates (R := lcg) 1 cat_calls (∅, 0) = Ok (word_index, g') ∧
    ∀ phrase record, word_index !! phrase = Some record →
      samples_of record = take 1 (occurrences phrase cat_calls).
Proof. apply (capacity_below_two_keeps_first (R := lcg) 1 cat_calls 0). lia. Defined.

Lemma blank_keyword_file_disables_filter_witness :
  is_good (C := blank_file_tools)
    (focus_keywords (ReadKeywords (U := ascii_text) (C := blank_file_tools) keyword_batch))
    (lit "cat") = true.
Proof.
  apply (blank_keyword_file_disables_filter (U := ascii_text) (C := blank_file_tools)
           keyword_batch (lit "cat")).
  - reflexivity.
  - repeat constructor.
Defined.

Lemma count_is_line_frequency_witness :
  ∃ b', ProcessRecords (U := ascii_text) (C := plain_tools) (F := exact parse_decimal)
          (capped_batch (Some sample_table)) sample_stdin = Ok b' ∧
    ∀ phrase,
      let lines :=
        filter (λ line, phrase ∈ indexed_phrases (U := ascii_text) (C := plain_tools)
                                   (F := exact parse_decimal)
                                   (capped_batch (Some sample_table)) line)
          (accepted (U := ascii_text) (C := plain_tools) ∅ sample_stdin) in
      match word_index b' !! phrase with
      | Some record => count_of record = Z.of_nat (length lines) ∧ lines ≠ []
      | None => lines = []
      end.
Proof.
  apply (count_is_line_frequency (U := ascii_text) (C := plain_tools) (F := exact parse_decimal)
           (capped_batch (Some sample_table)) sample_stdin).
  - reflexivity.
  - apply (exact_scoring_ok parse_decimal _ sample_table); [reflexivity|].
    apply sample_table_nonneg.
Defined.

Lemma samples_point_to_lines_witness :
  ∃ b', ProcessRecords (U := ascii_text) (C := plain_tools) (F := exact parse_decimal)
          (capped_batch (Some sample_table)) sample_stdin = Ok b' ∧
    ∀ phrase record line_id,
      word_index b' !! phrase = Some record → line_id ∈ samples_of record →
      ∃ i line, line_id = Z.of_nat i
        ∧ accepted (U := ascii_text) (C := plain_tools) ∅ sample_stdin !! i = Some line
        ∧ phrase ∈ indexed_phrases (U := ascii_text) (C := plain_tools)
                     (F := exact parse_decimal) (capped_batch (Some sample_table)) line
        ∧ output_dbm b' !! line_key line_id = Some line.
Proof.
  apply (samples_point_to_lines (U := ascii_text) (C := plain_tools) (F := exact parse_decimal)
           (capped_batch (Some sample_table)) sample_stdin).
  - reflexivity.
  - apply (exact_scoring_ok parse_decimal _ sample_table); [reflexivity|].
    apply sample_table_nonneg.
Defined.

Lemma Run_store_witness :
  ∃ b', Run (U := ascii_text) (C := plain_tools) (F := exact parse_decimal)
          (capped_batch (Some sample_table)) sample_stdin = Ok b'
    ∧ (∀ i line, accepted (U := ascii_text) (C := plain_tools) ∅ sample_stdin !! i = Some line →
         output_dbm b' !! line_key (Z.of_nat i) = Some line)
    ∧ (∀ phrase record, word_index b' !! phrase = Some record →
         output_dbm b' !! phrase = Some (index_value record))
    ∧ (∀ key, is_Some (output_dbm b' !! key) →
         (∃ i, (i < length (accepted (U := ascii_text) (C := plain_tools) ∅ sample_stdin))%nat
               ∧ key = line_key (Z.of_nat i))
         ∨ is_Some (word_index b' !! key)).
Proof.
  apply (Run_store (U := ascii_text) (C := plain_tools) (F := exact parse_decimal)
           (capped_batch (Some sample_table)) sample_stdin).
  - reflexivity.
  - apply (exact_scoring_ok parse_decimal _ sample_table); [reflexivity|].
    apply sample_table_nonneg.
Defined.

Lemma unknown_phrases_keep_order_witness :
  rank_phrases (F := exact parse_decimal) (capped_batch (Some sample_table))
    [lit "a"; lit "dog"; lit "ran"]
  = Ok [lit "a"; lit "dog"; lit "ran"].
Proof.
  apply (unknown_phrases_keep_order parse_decimal (capped_batch (Some sample_table))
           sample_table [lit "a"; lit "dog"; lit "ran"]).
  - reflexivity.
  - repeat constructor;
      (apply single_token_absent;
       [vm_compute; reflexivity|vm_compute; reflexivity|
        apply (bool_decide_unpack _); vm_compute; exact I]).
Defined.
